(** * Localflare: the binding-sharing sidecar

    A shallow embedding of three pieces of the repository:

    - the configuration synthesizer ([setupLocalflareDir], imported by the
      CLI from [./shadow-config.js]),
    - the sidecar worker (the Hono application whose catch-all handler
      proxies to [env.USER_WORKER] and records traffic),
    - the process supervisor (the two [cac] commands of the CLI: the default
      command and [attach]).

    JavaScript numbers that the code only prints or compares are integers
    here ([Z]); strings are [string]; [undefined]/[null] are [None].
    Console colouring ([picocolors]) and the leading glyphs of the console
    messages are left out of the message texts. *)

From Stdlib Require Import String Ascii List ZArith Bool Arith Lia DecimalString.
Import ListNotations.
Open Scope string_scope.
Open Scope list_scope.

(** String concatenation, [a + b] and template literals of the source. *)
Infix "+++" := String.append (right associativity, at level 60).

(* ===================================================================== *)
(** ** JavaScript string helpers *)
(* ===================================================================== *)

Module Js.

(** [hay.includes(needle)] *)
Fixpoint includes (needle hay : string) : bool :=
  match hay with
  | EmptyString => String.prefix needle EmptyString
  | String _ rest => String.prefix needle hay || includes needle rest
  end.

(** [hay.startsWith(p)] *)
Definition startsWith (p hay : string) : bool := String.prefix p hay.

(** [String(n)] and [`${n}`] for an integer [n] *)
Definition showZ (n : Z) : string := NilZero.string_of_int (Z.to_int n).

(** JavaScript truthiness of an optional string: [undefined] and the
    empty string are falsy. *)
Definition truthy (s : option string) : bool :=
  match s with
  | Some (String _ _) => true
  | _ => false
  end.

(** [arr.join(sep)] *)
Fixpoint join (sep : string) (l : list string) : string :=
  match l with
  | [] => ""
  | [x] => x
  | x :: rest => x +++ sep +++ join sep rest
  end.

End Js.

(* ===================================================================== *)
(** ** Manifests and the configuration synthesizer *)
(* ===================================================================== *)

Module Manifest.

Inductive BindingKind :=
| StorageDb
| Kv
| ObjectBucket
| StatefulObjectClass
| QueueProducer
| QueueConsumer
| PlainVariable.

Record BindingDeclaration := mkDecl {
  kind : BindingKind;
  bindingName : string;
  resourceIdentifier : string
}.

(** Ordered declarations plus process metadata. *)
Record ResourceManifest := mkManifest {
  name : string;
  entryPoint : string;
  bindings : list BindingDeclaration
}.

(** The binding through which the sidecar reaches the user process; the
    worker reads it as [c.env.USER_WORKER]. *)
Record ServiceReference := mkServiceRef {
  sr_binding : string;
  sr_service : string
}.

Record CompanionManifest := mkCompanion {
  cm_bindings : list BindingDeclaration;
  cm_serviceReference : option ServiceReference
}.

Definition kind_eqb (a b : BindingKind) : bool :=
  match a, b with
  | StorageDb, StorageDb | Kv, Kv | ObjectBucket, ObjectBucket
  | StatefulObjectClass, StatefulObjectClass
  | QueueProducer, QueueProducer | QueueConsumer, QueueConsumer
  | PlainVariable, PlainVariable => true
  | _, _ => false
  end.

Definition isVariable (d : BindingDeclaration) : bool :=
  kind_eqb (kind d) PlainVariable.

Definition kind_eq_dec (a b : BindingKind) : {a = b} + {a <> b}.
Proof. decide equality. Defined.

Definition decl_eq_dec (a b : BindingDeclaration) : {a = b} + {a <> b}.
Proof. decide equality; try apply string_dec; apply kind_eq_dec. Defined.

Inductive SetupError :=
| ManifestNotFound
| ManifestInvalid
| WorkDirUnwritable.

(** A call that either returns or throws a setup error. *)
Inductive Result (A : Type) :=
| Ok (a : A)
| Throw (e : SetupError).
Arguments Ok {A} a.
Arguments Throw {A} e.

Definition bind {A B} (r : Result A) (k : A -> Result B) : Result B :=
  match r with
  | Ok a => k a
  | Throw e => Throw e
  end.

Notation "x <- r ;; k" := (bind r (fun x => k))
  (at level 61, r at next level, right associativity).

(** *** What is on disk *)

(** A binding as declared in the file, before validation. *)
Record RawBinding := mkRaw {
  raw_kind : string;
  raw_binding : option string;
  raw_resource : option string
}.

Record RawManifest := mkRawManifest {
  raw_name : string;
  raw_main : string;
  raw_bindings : list RawBinding
}.

Inductive File :=
| SourceFile (m : RawManifest)
| CompanionFile (m : CompanionManifest).

(** Files by path (the first entry for a path is the live one) and the
    directories that cannot be created or written. *)
Record FS := mkFS {
  files : list (string * File);
  unwritable : list string
}.

Fixpoint lookup (p : string) (l : list (string * File)) : option File :=
  match l with
  | [] => None
  | (q, f) :: rest => if String.eqb p q then Some f else lookup p rest
  end.

Definition mem (p : string) (l : list string) : bool :=
  existsb (String.eqb p) l.

(** *** Manifest Parser *)

(** Modelled from the spec: the kinds a declaration may name; the parser
    itself ([localflare-core]) is not among the sources. *)
Definition parseKind (s : string) : option BindingKind :=
  if String.eqb s "storage-db" then Some StorageDb
  else if String.eqb s "kv" then Some Kv
  else if String.eqb s "object-bucket" then Some ObjectBucket
  else if String.eqb s "stateful-object-class" then Some StatefulObjectClass
  else if String.eqb s "queue-producer" then Some QueueProducer
  else if String.eqb s "queue-consumer" then Some QueueConsumer
  else if String.eqb s "variable" then Some PlainVariable
  else None.

(** Modelled from the spec: a declaration is malformed when its name or
    identifier is missing, invalid when its kind is unknown. *)
Definition parseBinding (r : RawBinding) : Result BindingDeclaration :=
  match parseKind (raw_kind r), raw_binding r, raw_resource r with
  | Some k, Some n, Some i => Ok (mkDecl k n i)
  | _, _, _ => Throw ManifestInvalid
  end.

Definition sameSlot (a b : BindingDeclaration) : bool :=
  kind_eqb (kind a) (kind b) && String.eqb (bindingName a) (bindingName b).

(** Modelled from the spec: declarations are read in order; a second
    declaration of a [bindingName] within the same kind namespace makes
    the manifest invalid. *)
Fixpoint parseBindings (rs : list RawBinding) : Result (list BindingDeclaration) :=
  match rs with
  | [] => Ok []
  | r :: rest =>
      d <- parseBinding r ;;
      ds <- parseBindings rest ;;
      if existsb (sameSlot d) ds then Throw ManifestInvalid else Ok (d :: ds)
  end.

(** Modelled from the spec: [parse(path) -> ResourceManifest], failing
    with [ManifestNotFound] or [ManifestInvalid]; a pure read. *)
Definition parse (fs : FS) (path : string) : Result ResourceManifest :=
  match lookup path (files fs) with
  | Some (SourceFile m) =>
      ds <- parseBindings (raw_bindings m) ;;
      Ok (mkManifest (raw_name m) (raw_main m) ds)
  | Some (CompanionFile _) => Throw ManifestInvalid
  | None => Throw ManifestNotFound
  end.

(** *** Config Synthesizer *)

(** Modelled from the spec: [synthesize(source, isPrimary)]. Every
    non-variable declaration is copied verbatim, plain variables are
    dropped, and the primary deployment gets the service reference to the
    user process. [shadow-config.ts] is not among the sources. *)
Definition synthesize (source : ResourceManifest) (isPrimary : bool)
  : CompanionManifest :=
  {| cm_bindings := filter (fun d => negb (isVariable d)) (bindings source);
     cm_serviceReference :=
       if isPrimary
       then Some (mkServiceRef "USER_WORKER" (name source))
       else None |}.

(** Modelled from the spec: [write(manifest, workDir) -> path], failing
    with [WorkDirUnwritable]. *)
Definition write (fs : FS) (m : CompanionManifest) (workDir : string)
  : Result (string * FS) :=
  if mem workDir (unwritable fs) then Throw WorkDirUnwritable
  else
    let path := workDir +++ "/wrangler.toml" in
    Ok (path, {| files := (path, CompanionFile m) :: files fs;
                 unwritable := unwritable fs |}).

Record Setup := mkSetup {
  shadowConfigPath : string;
  manifest : ResourceManifest
}.

Section WithPaths.

(** [dirname] of [node:path]. *)
Variable dirname : string -> string.

(** Modelled from the spec: [setupLocalflareDir(configPath, isPrimary)]
    as the CLI calls it: parse the source manifest, synthesize its
    companion, write it under the [.localflare] working directory next
    to the source, and hand back the written path with the parsed
    manifest. *)
Definition setupLocalflareDir (fs : FS) (configPath : string) (isPrimary : bool)
  : Result (Setup * FS) :=
  source <- parse fs configPath ;;
  written <- write fs (synthesize source isPrimary)
                   (dirname configPath +++ "/.localflare") ;;
  Ok (mkSetup (fst written) source, snd written).

(** The companion manifest a successful setup left on disk. *)
Definition companionOf (r : Setup * FS) : option CompanionManifest :=
  match lookup (shadowConfigPath (fst r)) (files (snd r)) with
  | Some (CompanionFile m) => Some m
  | _ => None
  end.

End WithPaths.

End Manifest.

(* ===================================================================== *)
(** ** The capture stores of the sidecar *)
(* ===================================================================== *)

Module Store.

Definition Headers := list (string * string).

(** The body of a response: what [c.json(obj, status)] serialises, or the
    bytes of a response that came from elsewhere. *)
Inductive Body :=
| JsonObject (fields : list (string * string))
| Raw (bytes : string).

Record Request := mkRequest {
  method : string;
  path : string;
  headers : Headers;
  body : option string
}.

Record Response := mkResponse {
  status : Z;
  responseHeaders : Headers;
  responseBody : Body
}.

(** Modelled from the spec: [BoundedOrderedStore<T>], a fixed capacity and
    the entries in insertion order, oldest first. [request-store.ts] is
    not among the sources. *)
Record Bounded (T : Type) := mkBounded {
  capacity : nat;
  items : list T
}.
Arguments mkBounded {T}.
Arguments capacity {T}.
Arguments items {T}.

(** Modelled from the spec: when the store is full the oldest entry is
    evicted before the new one enters. *)
Definition push {T} (x : T) (s : Bounded T) : Bounded T :=
  {| capacity := capacity s;
     items := (if Nat.leb (capacity s) (List.length (items s))
               then tl (items s) else items s) ++ [x] |}.

(** *** Log Capture Store *)

Inductive Level := LevelInfo | LevelWarn | LevelError.

Inductive ContextValue :=
| CtxId (requestId : nat)
| CtxText (s : string).

Record LogEntry := mkLog {
  level : Level;
  message : string;
  context : option (list (string * ContextValue));
  category : option string;
  timestamp : Z
}.

Definition LogStore := Bounded LogEntry.

(** Modelled from the spec: [log(level, message, context?, category?)]
    appends one entry stamped with the current time. *)
Definition log (lvl : Level) (msg : string)
           (ctx : option (list (string * ContextValue)))
           (cat : option string) (now : Z) (s : LogStore) : LogStore :=
  push (mkLog lvl msg ctx cat now) s.

(** *** Traffic Capture Store *)

Record CapturedExchange := mkExchange {
  ex_id : nat;
  ex_method : string;
  ex_path : string;
  ex_headersIn : Headers;
  ex_startedAt : Z;
  ex_status : option Z;
  ex_headersOut : option Headers;
  ex_completedAt : option Z;
  ex_durationMs : option Z;
  ex_error : option string
}.

(** The correlation ids are opaque tokens that never collide; a counter
    stands for them. *)
Record RequestStore := mkRequestStore {
  exchanges : Bounded CapturedExchange;
  nextId : nat
}.

(** Modelled from the spec: [startExchange(request) -> correlationId]
    records method, path, headers and start time and returns the id. *)
Definition startRequest (req : Request) (now : Z) (s : RequestStore)
  : nat * RequestStore :=
  (nextId s,
   {| exchanges :=
        push (mkExchange (nextId s) (method req) (path req) (headers req)
                          now None None None None None)
              (exchanges s);
      nextId := S (nextId s) |}).

Definition fill (resp : Response) (startTime now : Z) (e : CapturedExchange)
  : CapturedExchange :=
  {| ex_id := ex_id e;
     ex_method := ex_method e;
     ex_path := ex_path e;
     ex_headersIn := ex_headersIn e;
     ex_startedAt := ex_startedAt e;
     ex_status := Some (status resp);
     ex_headersOut := Some (responseHeaders resp);
     ex_completedAt := Some now;
     ex_durationMs := Some (now - startTime)%Z;
     ex_error := ex_error e |}.

(** Modelled from the spec: [completeExchange(correlationId, response,
    startTime)] fills status, headers and duration of the record with
    that id; an id whose record was evicted finds nothing to fill. *)
Definition completeRequest (requestId : nat) (resp : Response)
           (startTime now : Z) (s : RequestStore) : RequestStore :=
  {| exchanges :=
       {| capacity := capacity (exchanges s);
          items := map (fun e => if Nat.eqb (ex_id e) requestId
                                 then fill resp startTime now e else e)
                       (items (exchanges s)) |};
     nextId := nextId s |}.

(** Only the "in" fields are populated. *)
Definition pending (e : CapturedExchange) : bool :=
  match ex_status e, ex_headersOut e, ex_completedAt e, ex_durationMs e, ex_error e with
  | None, None, None, None, None => true
  | _, _, _, _, _ => false
  end.

Definition markedError (e : CapturedExchange) : bool :=
  match ex_error e with
  | Some _ => true
  | None => false
  end.

End Store.

(* ===================================================================== *)
(** ** The sidecar worker *)
(* ===================================================================== *)

Module Worker.
Import Store.

(** The module-level singletons [requestStore] and [logStore], and the
    clock behind [Date.now()]. *)
Record World := mkWorld {
  requestStore : RequestStore;
  logStore : LogStore;
  now : Z
}.

(** A service binding: an object with a [fetch] method. *)
Record Fetcher := mkFetcher {
  service : string
}.

Record Env := mkEnv {
  USER_WORKER : option Fetcher
}.

(** What a [catch] clause can receive. *)
Inductive Thrown :=
| ErrorObject (message : string)
| OtherValue.

(** How an awaited promise settles. *)
Inductive Outcome :=
| Resolved (response : Response)
| Rejected (error : Thrown).

Definition API_PREFIX : string := "/__localflare".

(** [c.json(obj, status)] *)
Definition json (fields : list (string * string)) (st : Z) : Response :=
  {| status := st;
     responseHeaders := [("Content-Type", "application/json")];
     responseBody := JsonObject fields |}.

(** *** Routes, in registration order *)

Inductive SubRouter :=
| Bindings | D1 | KV | R2 | Queues | DO | Logs | Requests | Analytics.

Definition subRouters : list SubRouter :=
  [Bindings; D1; KV; R2; Queues; DO; Logs; Requests; Analytics].

Definition mount (s : SubRouter) : string :=
  match s with
  | Bindings => API_PREFIX +++ "/bindings"
  | D1 => API_PREFIX +++ "/d1"
  | KV => API_PREFIX +++ "/kv"
  | R2 => API_PREFIX +++ "/r2"
  | Queues => API_PREFIX +++ "/queues"
  | DO => API_PREFIX +++ "/do"
  | Logs => API_PREFIX +++ "/logs"
  | Requests => API_PREFIX +++ "/requests"
  | Analytics => API_PREFIX +++ "/analytics"
  end.

Inductive Route :=
| RouteHealth
| RouteSub (s : SubRouter)
| RouteProxy.

Section Routing.

(** Whether the sub-application mounted at [mount s] has a handler for
    the request; the sub-applications are outside this development. *)
Variable subHandles : SubRouter -> Request -> bool.

(** Hono serves a [HEAD] request through the [GET] routes. *)
Definition routedMethod (req : Request) : string :=
  if String.eqb (method req) "HEAD" then "GET" else method req.

Definition route (req : Request) : Route :=
  if String.eqb (routedMethod req) "GET"
     && String.eqb (path req) (API_PREFIX +++ "/health")
  then RouteHealth
  else
    match find (fun s => Js.startsWith (mount s) (path req) && subHandles s req)
               subRouters with
    | Some s => RouteSub s
    | None => RouteProxy
    end.

(** *** The middleware in front of the routes

    [app.use('*', cors({origin: [...], credentials: true}))] puts the [cors]
    middleware of [hono/cors] in front of every route. It answers an
    [OPTIONS] request itself, with status 204 and no body, without calling
    [next]; for any other request it sets its headers and calls [next], and
    the reply of the route goes out with those headers set on it. Which
    headers it sets is the library's business: [preflightHeaders] and
    [corsHeaders] stand for them. *)
Variable preflightHeaders : Request -> Headers.
Variable corsHeaders : Request -> Headers -> Headers.

Definition preflight (req : Request) : Response :=
  {| status := 204;
     responseHeaders := preflightHeaders req;
     responseBody := Raw EmptyString |}.

Inductive Served :=
| ByCors (reply : Response)
| ByRoute (r : Route).

Definition serve (req : Request) : Served :=
  if String.eqb (method req) "OPTIONS"
  then ByCors (preflight req)
  else ByRoute (route req).

(** What the caller receives when the handler of the route returned
    [reply]: the same status and body with the headers of the middleware
    set, and for a [HEAD] request no body ([new Response(null, reply)]). *)
Definition outbound (req : Request) (reply : Response) : Response :=
  {| status := status reply;
     responseHeaders := corsHeaders req (responseHeaders reply);
     responseBody := if String.eqb (method req) "HEAD"
                     then Raw EmptyString
                     else responseBody reply |}.

End Routing.

(** *** Health check *)

Definition health (w : World) : Response * World :=
  (json [("status", "ok");
         ("message", "Localflare API is running with shared bindings.")] 200,
   {| requestStore := requestStore w;
      logStore := log LevelInfo "Health check: Localflare API is running"
                      None (Some "system") (now w) (logStore w);
      now := now w |}).

(** *** The catch-all proxy handler

    The handler is an [async] function with one suspension point, the
    [await] of [userWorker.fetch]. [proxy_begin] is the code up to that
    point, [proxy_resume] the code from it, run when the fetch settles. *)

Inductive Pending :=
| AwaitFetch (userWorker : Fetcher) (forwarded : Request)
             (requestId : nat) (startTime : Z).

Definition pendingId (p : Pending) : nat :=
  match p with AwaitFetch _ _ i _ => i end.

Definition proxy_begin (env : Env) (req : Request) (w : World)
  : (Response + Pending) * World :=
  match USER_WORKER env with
  | Some userWorker =>
      let (requestId, rs) := startRequest req (now w) (requestStore w) in
      let startTime := now w in
      (inr (AwaitFetch userWorker req requestId startTime),
       {| requestStore := rs; logStore := logStore w; now := now w |})
  | None =>
      (inl (json [("error", "Not found");
                  ("message", "This route is not handled by Localflare API. User worker not bound.")]
                 404),
       w)
  end.

(** [error instanceof Error ? error.message : 'Unknown error'] *)
Definition errorMessage (e : Thrown) : string :=
  match e with
  | ErrorObject m => m
  | OtherValue => "Unknown error"
  end.

Definition proxy_resume (p : Pending) (o : Outcome) (w : World)
  : Response * World :=
  match p with
  | AwaitFetch _ _ requestId startTime =>
      match o with
      | Resolved response =>
          (response,
           {| requestStore :=
                completeRequest requestId response startTime (now w) (requestStore w);
              logStore := logStore w;
              now := now w |})
      | Rejected error =>
          let msg := errorMessage error in
          (json [("error", "Worker error"); ("message", msg)] 500,
           {| requestStore := requestStore w;
              logStore := log LevelError ("Request failed: " +++ msg)
                              (Some [("requestId", CtxId requestId);
                                     ("error", CtxText msg)])
                              (Some "request") (now w) (logStore w);
              now := now w |})
      end
  end.

(** *** Many requests in flight

    One thread, many suspended handlers: between two handler segments the
    clock may advance and other segments may run. *)

Inductive Input :=
| Proxied (req : Request)
| Health
| Settled (requestId : nat) (o : Outcome)
| Elapse (ms : nat).

Record Sys := mkSys {
  world : World;
  inflight : list Pending;
  replies : list Response
}.

Definition awaits (requestId : nat) (p : Pending) : bool :=
  Nat.eqb (pendingId p) requestId.


Definition step (env : Env) (i : Input) (s : Sys) : Sys :=
  match i with
  | Proxied req =>
      match proxy_begin env req (world s) with
      | (inl r, w) => mkSys w (inflight s) (replies s ++ [r])
      | (inr p, w) => mkSys w (inflight s ++ [p]) (replies s)
      end
  | Health =>
      let (r, w) := health (world s) in
      mkSys w (inflight s) (replies s ++ [r])
  | Settled requestId o =>
      match find (awaits requestId) (inflight s) with
      | Some p =>
          let (r, w) := proxy_resume p o (world s) in
          mkSys w (filter (fun q => negb (awaits requestId q)) (inflight s))
                (replies s ++ [r])
      | None => s
      end
  | Elapse ms =>
      mkSys {| requestStore := requestStore (world s);
               logStore := logStore (world s);
               now := (now (world s) + Z.of_nat ms)%Z |}
            (inflight s) (replies s)
  end.

Definition run (env : Env) (inputs : list Input) (s : Sys) : Sys :=
  fold_left (fun acc i => step env i acc) inputs s.

(** The sidecar at start: empty stores of the given capacities. *)
Definition boot (requestCapacity logCapacity : nat) (t0 : Z) : Sys :=
  mkSys {| requestStore := mkRequestStore (mkBounded requestCapacity []) 0;
           logStore := mkBounded logCapacity [];
           now := t0 |}
        [] [].

Definition storedExchanges (s : Sys) : list CapturedExchange :=
  items (exchanges (requestStore (world s))).

Definition storedLogs (s : Sys) : list LogEntry :=
  items (logStore (world s)).

(** How a stored record may differ between two moments: not at all, or
    by one completion of a record that had only its "in" fields. *)
Definition evolves (e e' : CapturedExchange) : Prop :=
  e' = e
  \/ (pending e = true
      /\ exists response startTime t, e' = fill response startTime t e).

Definition storedIds (s : Sys) : list nat := map ex_id (storedExchanges s).

Definition inflightIds (s : Sys) : list nat := map pendingId (inflight s).

(** What holds of the sidecar between any two handler segments. *)
Record Consistent (s : Sys) : Prop := mkConsistent {
  stored_below : Forall (fun i => i < nextId (requestStore (world s))) (storedIds s);
  inflight_below : Forall (fun i => i < nextId (requestStore (world s))) (inflightIds s);
  stored_distinct : NoDup (storedIds s);
  settled_once : forall e, In e (storedExchanges s) -> pending e = false ->
                           ~ In (ex_id e) (inflightIds s);
  never_marked : Forall (fun e => markedError e = false) (storedExchanges s)
}.

(** The entry the health check writes. *)
Definition healthEntry (t : Z) : LogEntry :=
  mkLog LevelInfo "Health check: Localflare API is running" None (Some "system") t.

Definition isHealthEntry (l : LogEntry) : bool :=
  match level l, category l with
  | LevelInfo, Some c => String.eqb c "system"
                         && String.eqb (message l) "Health check: Localflare API is running"
  | _, _ => false
  end.

(** After [k] polls: the log is some older entries followed by health
    entries, within capacity, and unless the older entries are all gone
    there are at least [k] health entries. *)
Definition polled (k : nat) (s : Sys) : Prop :=
  exists older recent,
    storedLogs s = older ++ recent
    /\ Forall (fun l => isHealthEntry l = true) recent
    /\ List.length (storedLogs s) <= capacity (logStore (world s))
    /\ (older = [] \/ k <= List.length recent).

End Worker.

(* ===================================================================== *)
(** ** The process supervisor (the CLI) *)
(* ===================================================================== *)

Module Cli.
Import Manifest.

(** The parsed command-line options. [open] and [tui] are [false] exactly
    when [--no-open] / [--no-tui] was given; the [attach] command has no
    [--verbose] and no [--no-tui]. [port] is [Number(options.port)] for a
    port given as an integer; [String] prints such a number in decimal
    digits, as [Js.showZ] does, while it is below [10 ^ 21] in absolute
    value. *)
Record Options := mkOptions {
  port : Z;
  verbose : bool;
  dev : bool;
  open : bool;
  tui : bool;
  persistTo : option string
}.

(** What the supervisor does to the outside, in order. *)
Inductive Effect :=
| ConsoleLog (line : string)
| StdoutWrite (chunk : string)
| StderrWrite (chunk : string)
| Spawn (command : string) (args : list string) (cwd : string) (shell : bool)
| StartTui (workerPort : Z) (dashboardUrl workerName : string)
| TuiSetStarted (b : bool)
| TuiAddOutput (chunk : string)
| TuiUnmount
| OpenBrowser (url : string)
| Kill (signal : string)
| Exit (code : Z).

(** The mutable variables of an action once the child is spawned:
    [started], whether [tui] is non-null, and whether [process.exit] has
    been called (after which nothing runs). *)
Record Supervisor := mkSupervisor {
  started : bool;
  hasTui : bool;
  exited : option Z
}.

Inductive Mode := Primary | Attach.

(** What the child and the operating system deliver to the handlers. *)
Inductive Event :=
| Stdout (chunk : string)
| Stderr (chunk : string)
| Close (code : option Z)
| Signal (name : string)
| TuiExit.

(** [`${error}`] for the setup errors. *)
Definition describe (e : SetupError) : string :=
  match e with
  | ManifestNotFound => "ManifestNotFound"
  | ManifestInvalid => "ManifestInvalid"
  | WorkDirUnwritable => "WorkDirUnwritable"
  end.

Definition logEach (lines : list string) : list Effect := map ConsoleLog lines.

Definition dashboardUrl (options : Options) : string :=
  if dev options
  then "http://localhost:5174?port=" +++ Js.showZ (port options)
  else "https://studio.localflare.dev?port=" +++ Js.showZ (port options).

(** *** Handlers of the default command *)

Definition isReadyPrimary (output : string) : bool :=
  Js.includes "Ready" output || Js.includes "Listening" output.

Definition isLocalflareNoise (output : string) : bool :=
  Js.includes "/__localflare/" output
  || Js.includes "localflare-api has access" output
  || Js.includes "env.LOCALFLARE_MANIFEST" output
  || Js.includes "env.USER_WORKER" output
  || Js.includes "Reloading local server" output
  || (Js.includes "Binding" output && Js.includes "Resource" output
      && Js.includes "Mode" output).

Definition runningBannerPrimary (options : Options) : list Effect :=
  logEach
    [ "  Development environment is running!";
      "";
      "  YOUR APP:   http://localhost:" +++ Js.showZ (port options);
      "  API:        http://localhost:" +++ Js.showZ (port options) +++ "/__localflare/*";
      "";
      "  Open:       " +++ dashboardUrl options;
      "";
      "  Press Ctrl+C to stop";
      "" ].

Definition onStdoutPrimary (options : Options) (s : Supervisor) (output : string)
  : Supervisor * list Effect :=
  let ready := negb (started s) && isReadyPrimary output in
  let s1 := if ready then mkSupervisor true (hasTui s) (exited s) else s in
  let announce :=
    if ready
    then (if hasTui s then [TuiSetStarted true] else runningBannerPrimary options)
         ++ (if open options then [OpenBrowser (dashboardUrl options)] else [])
    else [] in
  let routed :=
    if hasTui s1 then [TuiAddOutput output]
    else if started s1 then
      (if negb (isLocalflareNoise output) then [StdoutWrite output] else [])
    else if verbose options then [StdoutWrite output]
    else [] in
  (s1, announce ++ routed).

Definition onStderrPrimary (options : Options) (s : Supervisor) (output : string)
  : Supervisor * list Effect :=
  (s,
   if hasTui s then [TuiAddOutput output]
   else if verbose options then [StderrWrite output]
   else []).

(** [code ?? 0] *)
Definition orZero (code : option Z) : Z :=
  match code with
  | Some c => c
  | None => 0%Z
  end.

(** [code !== 0 && code !== null] *)
Definition crashed (code : option Z) : bool :=
  match code with
  | Some c => negb (Z.eqb c 0)
  | None => false
  end.

Definition onClosePrimary (s : Supervisor) (code : option Z)
  : Supervisor * list Effect :=
  (mkSupervisor (started s) (hasTui s) (Some (orZero code)),
   (if hasTui s then [TuiUnmount] else [])
   ++ (if crashed code
       then logEach
              [ "";
                "  Wrangler exited with code " +++ Js.showZ (orZero code);
                "";
                "  Tip: Try running 'wrangler dev' directly to debug";
                "" ]
       else [])
   ++ [Exit (orZero code)]).

Definition shutdownPrimary (s : Supervisor) : Supervisor * list Effect :=
  (s, (if hasTui s then [TuiUnmount] else []) ++ [Kill "SIGTERM"]).

(** *** Handlers of the [attach] command *)

Definition isReadyAttach (output : string) : bool :=
  Js.includes "Ready" output
  || Js.includes "has access to the following bindings" output.

Definition runningBannerAttach (options : Options) : list Effect :=
  logEach
    [ "  Localflare API is running!";
      "";
      "  API:        http://localhost:" +++ Js.showZ (port options) +++ "/__localflare/*";
      "  Dashboard:  " +++ dashboardUrl options;
      "";
      "  Your main worker should be running separately (wrangler dev, pnpm dev, etc.)";
      "     Both share the same .wrangler/state directory for D1/KV/R2 access";
      "";
      "  Press Ctrl+C to stop";
      "" ].

Definition onStdoutAttach (options : Options) (s : Supervisor) (output : string)
  : Supervisor * list Effect :=
  if negb (started s) && isReadyAttach output
  then (mkSupervisor true (hasTui s) (exited s),
        runningBannerAttach options
        ++ (if open options then [OpenBrowser (dashboardUrl options)] else []))
  else (s, []).

Definition onStderrAttach (s : Supervisor) (output : string)
  : Supervisor * list Effect :=
  (s,
   if Js.includes "ERROR" output || Js.includes "error" output
   then [StderrWrite output]
   else []).

Definition onCloseAttach (s : Supervisor) (code : option Z)
  : Supervisor * list Effect :=
  (mkSupervisor (started s) (hasTui s) (Some (orZero code)),
   (if crashed code
    then [ConsoleLog ("  Localflare API exited with code " +++ Js.showZ (orZero code))]
    else [])
   ++ [Exit (orZero code)]).

Definition shutdownAttach (s : Supervisor) : Supervisor * list Effect :=
  (s, [Kill "SIGTERM"]).

(** *** The event loop after the spawn *)

Definition isReady (m : Mode) : string -> bool :=
  match m with
  | Primary => isReadyPrimary
  | Attach => isReadyAttach
  end.

(** The handlers are registered for [SIGINT] and [SIGTERM]; the TUI's
    [onExit] callback exists only when the TUI was started. *)
Definition handle (m : Mode) (options : Options) (s : Supervisor) (e : Event)
  : Supervisor * list Effect :=
  match m, e with
  | Primary, Stdout chunk => onStdoutPrimary options s chunk
  | Primary, Stderr chunk => onStderrPrimary options s chunk
  | Primary, Close code => onClosePrimary s code
  | Primary, Signal name =>
      if String.eqb name "SIGINT" || String.eqb name "SIGTERM"
      then shutdownPrimary s else (s, [])
  | Primary, TuiExit => (s, if hasTui s then [Kill "SIGTERM"] else [])
  | Attach, Stdout chunk => onStdoutAttach options s chunk
  | Attach, Stderr chunk => onStderrAttach s chunk
  | Attach, Close code => onCloseAttach s code
  | Attach, Signal name =>
      if String.eqb name "SIGINT" || String.eqb name "SIGTERM"
      then shutdownAttach s else (s, [])
  | Attach, TuiExit => (s, [])
  end.

Fixpoint supervise (m : Mode) (options : Options) (s : Supervisor)
         (events : list Event) : Supervisor * list Effect :=
  match events with
  | [] => (s, [])
  | e :: rest =>
      match exited s with
      | Some _ => (s, [])
      | None =>
          let (s1, out1) := handle m options s e in
          let (s2, out2) := supervise m options s1 rest in
          (s2, out1 ++ out2)
      end
  end.

(** The code the process exits with, if it does. *)
Fixpoint exitCode (out : list Effect) : option Z :=
  match out with
  | [] => None
  | Exit c :: _ => Some c
  | _ :: rest => exitCode rest
  end.

Definition isSpawn (e : Effect) : bool :=
  match e with
  | Spawn _ _ _ _ => true
  | _ => false
  end.

Definition consoleLines (out : list Effect) : list string :=
  flat_map (fun e => match e with ConsoleLog l => [l] | _ => [] end) out.

(** The effects by which an action shows that the environment is up. *)
Definition announcesRunning (m : Mode) (e : Effect) : bool :=
  match m, e with
  | Primary, TuiSetStarted true => true
  | Primary, ConsoleLog l => String.eqb l "  Development environment is running!"
  | Attach, ConsoleLog l => String.eqb l "  Localflare API is running!"
  | _, _ => false
  end.

Definition runningAnnouncements (m : Mode) (out : list Effect) : nat :=
  List.length (filter (announcesRunning m) out).

Definition opensBrowser (e : Effect) : bool :=
  match e with
  | OpenBrowser _ => true
  | _ => false
  end.

Definition browserOpenings (out : list Effect) : nat :=
  List.length (filter opensBrowser out).

(** The console line that reports the child's exit code. *)
Definition reportsCode (code : Z) (line : string) : bool :=
  Js.includes ("exited with code " +++ Js.showZ code) line.

(** A remediation hint: a non-empty console line other than the report of
    the exit code. *)
Definition isHint (code : Z) (line : string) : bool :=
  negb (String.eqb line "") && negb (reportsCode code line).

Definition printsCode (code : Z) (out : list Effect) : bool :=
  existsb (reportsCode code) (consoleLines out).

Definition printsHint (code : Z) (out : list Effect) : bool :=
  existsb (isHint code) (consoleLines out).

(** The events that reach a handler: those up to the child's [close],
    whose handler ends the process. *)
Fixpoint untilClose (events : list Event) : list Event :=
  match events with
  | [] => []
  | Close code :: _ => [Close code]
  | e :: rest => e :: untilClose rest
  end.

(** Some chunk of the child's standard output carried a readiness
    phrase. *)
Definition sawReady (m : Mode) (events : list Event) : bool :=
  existsb (fun e => match e with
                    | Stdout chunk => isReady m chunk
                    | _ => false
                    end) events.

(** The code carried by the first [close] event, if the child closes. *)
Fixpoint firstClose (events : list Event) : option (option Z) :=
  match events with
  | [] => None
  | Close code :: _ => Some code
  | _ :: rest => firstClose rest
  end.

(** *** The two actions, up to the spawn *)

Section Actions.

(** [resolve], [dirname] and [join] of [node:path]. *)
Variable resolve : string -> string.
Variable dirname : string -> string.
Variable pathJoin : list string -> string.

(** [findWranglerConfig] and [WRANGLER_CONFIG_FILES] of
    [localflare-core], [formatBindings] of [./shadow-config.js]. *)
Variable findWranglerConfig : string -> option string.
Variable WRANGLER_CONFIG_FILES : list string.
Variable formatBindings : ResourceManifest -> list string.

(** The process: working directory, the arguments after [--], whether
    both [stdout] and [stdin] are terminals, and the disk. *)
Record Process := mkProcess {
  cwd : string;
  wranglerPassthrough : list string;
  isTTY : bool;
  disk : FS
}.

Definition existsSync (fs : FS) (p : string) : bool :=
  match lookup p (files fs) with
  | Some _ => true
  | None => false
  end.

Definition persistPath (options : Options) (resolvedConfig : string) : string :=
  if Js.truthy (persistTo options)
  then resolve (match persistTo options with Some p => p | None => "" end)
  else pathJoin [dirname resolvedConfig; ".wrangler"; "state"].

(** The result of an action body: the effects so far and, unless the
    process has exited, the supervisor that now waits for events. *)
Definition Started := (list Effect * option Supervisor)%type.

(** Finding the wrangler config: the complaint printed before
    [process.exit(1)], or the resolved path. *)
Definition locatePrimary (proc : Process) (configPath : option string)
  : list Effect + string :=
  if Js.truthy configPath then
    let given := match configPath with Some p => p | None => "" end in
    let resolvedConfig := resolve given in
    if negb (existsSync (disk proc) resolvedConfig)
    then inl (logEach [ "  Could not find " +++ given;
                        "    Make sure the file exists.";
                        "" ])
    else inr resolvedConfig
  else
    match findWranglerConfig (cwd proc) with
    | None =>
        inl (logEach
               [ "  Could not find wrangler config file";
                 "    Looking for: " +++ Js.join ", " WRANGLER_CONFIG_FILES;
                 "    Make sure you're in a Cloudflare Worker project directory.";
                 "" ])
    | Some detectedConfig => inr detectedConfig
    end.

Definition locateAttach (proc : Process) (configPath : option string)
  : list Effect + string :=
  if Js.truthy configPath then
    let given := match configPath with Some p => p | None => "" end in
    let resolvedConfig := resolve given in
    if negb (existsSync (disk proc) resolvedConfig)
    then inl [ConsoleLog ("  Could not find " +++ given)]
    else inr resolvedConfig
  else
    match findWranglerConfig (cwd proc) with
    | None =>
        inl (logEach
               [ "  Could not find wrangler config file";
                 "    Looking for: " +++ Js.join ", " WRANGLER_CONFIG_FILES ])
    | Some detectedConfig => inr detectedConfig
    end.

Definition primary (proc : Process) (configPath : option string)
           (options : Options) : Started :=
  let hello :=
    logEach [""; "  Localflare"; "  Local Cloudflare Development Dashboard"; ""] in
  let workerPort := port options in
  let located := locatePrimary proc configPath in
  match located with
  | inl complaint => (hello ++ complaint ++ [Exit 1%Z], None)
  | inr resolvedConfig =>
      let detected := [ConsoleLog ("  Detected: " +++ resolvedConfig)] in
      match setupLocalflareDir dirname (disk proc) resolvedConfig true with
      | Throw error =>
          (hello ++ detected
           ++ logEach [ "  Failed to start Localflare";
                        "    " +++ describe error;
                        "" ]
           ++ [Exit 1%Z],
           None)
      | Ok (setup, _) =>
          let bindingLines := formatBindings (manifest setup) in
          let linking :=
            match bindingLines with
            | _ :: _ => ConsoleLog "  Linking bindings:" :: logEach bindingLines
            | [] => [ConsoleLog "  No bindings found in wrangler.toml"]
            end in
          let starting :=
            logEach [""; "  Starting Development Environment..."; ""] in
          let wranglerArgs :=
            [ "wrangler"; "dev";
              "-c"; shadowConfigPath setup;
              "-c"; resolvedConfig;
              "--persist-to"; persistPath options resolvedConfig;
              "--port"; Js.showZ workerPort ]
            ++ wranglerPassthrough proc in
          let showArgs :=
            match wranglerPassthrough proc with
            | _ :: _ =>
                if verbose options
                then logEach [ "  Wrangler args: "
                               +++ Js.join " " (wranglerPassthrough proc);
                               "" ]
                else []
            | [] => []
            end in
          let useTui := isTTY proc && tui options in
          (hello ++ detected ++ linking ++ starting ++ showArgs
           ++ [Spawn "npx" wranglerArgs (dirname resolvedConfig) true]
           ++ (if useTui
               then [StartTui workerPort (dashboardUrl options)
                              (name (manifest setup))]
               else []),
           Some (mkSupervisor false useTui None))
      end
  end.

Definition attach (proc : Process) (configPath : option string)
           (options : Options) : Started :=
  let hello :=
    logEach [""; "  Localflare";
             "  Attach Mode - Run alongside existing wrangler dev"; ""] in
  let apiPort := port options in
  let located := locateAttach proc configPath in
  match located with
  | inl complaint => (hello ++ complaint ++ [Exit 1%Z], None)
  | inr resolvedConfig =>
      let detected := [ConsoleLog ("  Detected: " +++ resolvedConfig)] in
      match setupLocalflareDir dirname (disk proc) resolvedConfig false with
      | Throw error =>
          (hello ++ detected
           ++ logEach [ "  Failed to start Localflare";
                        "    " +++ describe error ]
           ++ [Exit 1%Z],
           None)
      | Ok (setup, _) =>
          let bindingLines := formatBindings (manifest setup) in
          let linking :=
            match bindingLines with
            | _ :: _ => ConsoleLog "  Bindings:" :: logEach bindingLines
            | [] => []
            end in
          let starting :=
            logEach [ "";
                      "  Starting Localflare API on port "
                      +++ Js.showZ apiPort +++ "...";
                      "" ] in
          let wranglerArgs :=
            [ "wrangler"; "dev";
              "-c"; shadowConfigPath setup;
              "--persist-to"; persistPath options resolvedConfig;
              "--port"; Js.showZ apiPort ] in
          (hello ++ detected ++ linking ++ starting
           ++ [Spawn "npx" wranglerArgs (dirname resolvedConfig) true],
           Some (mkSupervisor false false None))
      end
  end.

Definition locate (m : Mode) : Process -> option string -> list Effect + string :=
  match m with
  | Primary => locatePrimary
  | Attach => locateAttach
  end.

(** [isPrimary], the second argument of [setupLocalflareDir]. *)
Definition isPrimary (m : Mode) : bool :=
  match m with
  | Primary => true
  | Attach => false
  end.

Definition action (m : Mode) : Process -> option string -> Options -> Started :=
  match m with
  | Primary => primary
  | Attach => attach
  end.

(** A whole run: the action body, then the events in the order they
    arrive, until [process.exit]. *)
Definition runCli (m : Mode) (proc : Process) (configPath : option string)
           (options : Options) (events : list Event) : list Effect :=
  match action m proc configPath options with
  | (out, None) => out
  | (out, Some s) => out ++ snd (supervise m options s events)
  end.

End Actions.

End Cli.

(* ===================================================================== *)
(** ** The CLI: arguments and what a run shows *)
(* ===================================================================== *)

Module CliTrace.
Import Cli.

(** [arr.indexOf(x)], with [None] for -1. *)
Fixpoint indexOf (x : string) (l : list string) : option nat :=
  match l with
  | [] => None
  | y :: rest =>
      if String.eqb y x then Some 0
      else match indexOf x rest with
           | Some i => Some (S i)
           | None => None
           end
  end.

(** The arguments after the first [--] of [process.argv.slice(2)]:
    [dashDashIndex >= 0 ? rawArgs.slice(dashDashIndex + 1) : []]. *)
Definition passthroughOf (rawArgs : list string) : list string :=
  match indexOf "--" rawArgs with
  | Some dashDashIndex => skipn (dashDashIndex + 1) rawArgs
  | None => []
  end.

Definition spawns (out : list Effect) : list Effect := filter isSpawn out.


Inductive Stream := ToStdout | ToStderr.

(** What was written with [process.stdout.write] and
    [process.stderr.write], the calls that pass the child's output on.
    The lines of [console.log] are [Cli.consoleLines]. *)
Definition written (out : list Effect) : list (Stream * string) :=
  flat_map (fun e => match e with
                     | StdoutWrite chunk => [(ToStdout, chunk)]
                     | StderrWrite chunk => [(ToStderr, chunk)]
                     | _ => []
                     end) out.

(** What was handed to the TUI with [tui.addOutput]. *)
Definition tuiOutputs (out : list Effect) : list string :=
  flat_map (fun e => match e with
                     | TuiAddOutput chunk => [chunk]
                     | _ => []
                     end) out.

(** The signals sent to the child. *)
Definition kills (out : list Effect) : list string :=
  flat_map (fun e => match e with
                     | Kill signal => [signal]
                     | _ => []
                     end) out.

Definition onStderr (w : Stream * string) : bool :=
  match fst w with
  | ToStderr => true
  | ToStdout => false
  end.

(** The chunks the child produced, by stream. *)
Definition chunks (events : list Event) : list (Stream * string) :=
  flat_map (fun e => match e with
                     | Stdout chunk => [(ToStdout, chunk)]
                     | Stderr chunk => [(ToStderr, chunk)]
                     | _ => []
                     end) events.

(** The events that ask the supervisor to stop the child: the two signals
    it listens to and, with a TUI, the TUI's exit request. *)
Definition asksToStop (withTui : bool) (e : Event) : bool :=
  match e with
  | Signal name => String.eqb name "SIGINT" || String.eqb name "SIGTERM"
  | TuiExit => withTui
  | _ => false
  end.

(** [output.includes('ERROR') || output.includes('error')], the test of the
    [attach] command's stderr handler. *)
Definition looksLikeError (chunk : string) : bool :=
  Js.includes "ERROR" chunk || Js.includes "error" chunk.

End CliTrace.

(* ===================================================================== *)
(** ** The sidecar worker: what its inputs are answered with *)
(* ===================================================================== *)

Module WorkerTrace.
Import Store Worker.

(** The body of the health check's answer. *)
Definition healthy : Response :=
  json [("status", "ok");
        ("message", "Localflare API is running with shared bindings.")] 200.

(** The answer of the catch-all when no user worker is bound. *)
Definition notBound : Response :=
  json [("error", "Not found");
        ("message", "This route is not handled by Localflare API. User worker not bound.")]
       404.

End WorkerTrace.

(* ===================================================================== *)
(** ** JavaScript string replacement *)
(* ===================================================================== *)

(** Strings stand for JavaScript strings through their UTF-8 bytes. The
    characters the code below looks for are ASCII (quotes, braces, [$],
    digits, letters) or white space, and UTF-8 keeps searching for such
    text, and cutting around it, the same as on the string itself. *)

Module JsReplace.

(** [s.slice(n)] *)
Fixpoint drop (n : nat) (s : string) : string :=
  match n, s with
  | S k, String _ rest => drop k rest
  | _, _ => s
  end.

(** The replacement text for one match ([GetSubstitution] of the language
    specification) when the pattern has no capture groups: [$$] is a dollar
    sign, [$&] the matched text, [$`] the text before the match, [$'] the
    text after it; every other character, a [$] before anything else
    included, stands for itself. *)
Fixpoint getSubstitution (matched before after replacement : string) : string :=
  match replacement with
  | EmptyString => EmptyString
  | String c rest =>
      if Ascii.eqb c "$" then
        match rest with
        | String d rest' =>
            if Ascii.eqb d "$"
            then String "$" (getSubstitution matched before after rest')
            else if Ascii.eqb d "&"
            then matched +++ getSubstitution matched before after rest'
            else if Ascii.eqb d "`"
            then before +++ getSubstitution matched before after rest'
            else if Ascii.eqb d "'"
            then after +++ getSubstitution matched before after rest'
            else String c (getSubstitution matched before after rest)
        | EmptyString => String c EmptyString
        end
      else String c (getSubstitution matched before after rest)
  end.

(** The scan of [s.replace(re, replacement)] for a global [re] that matches
    exactly the non-empty text [pattern]: [before] is the text already
    passed, [skip] the characters of the current match still to pass. *)
Fixpoint replaceFrom (pattern replacement before : string) (skip : nat)
         (rest : string) : string :=
  match rest with
  | EmptyString => EmptyString
  | String c rest' =>
      match skip with
      | S k =>
          replaceFrom pattern replacement (before +++ String c EmptyString) k rest'
      | O =>
          if String.prefix pattern rest
          then getSubstitution pattern before
                               (drop (String.length pattern) rest) replacement
               +++ replaceFrom pattern replacement (before +++ String c EmptyString)
                               (String.length pattern - 1) rest'
          else String c (replaceFrom pattern replacement
                                     (before +++ String c EmptyString) O rest')
      end
  end.

(** [s.replace(new RegExp(escaped(pattern), 'g'), replacement)], and
    [s.replace(/c/g, replacement)] for a literal character. *)
Definition replaceAll (pattern replacement s : string) : string :=
  replaceFrom pattern replacement EmptyString O s.

(** The scan of [s.split(separator)] for a non-empty separator: [current]
    is the piece being collected, [skip] the characters of the separator
    still to pass. *)
Fixpoint splitFrom (separator current : string) (skip : nat) (rest : string)
  : list string :=
  match rest with
  | EmptyString => [current]
  | String c rest' =>
      match skip with
      | S k => splitFrom separator current k rest'
      | O =>
          if String.prefix separator rest
          then current :: splitFrom separator EmptyString
                                    (String.length separator - 1) rest'
          else splitFrom separator (current +++ String c EmptyString) O rest'
      end
  end.

(** [s.split(separator)] *)
Definition split (separator s : string) : list string :=
  splitFrom separator EmptyString O s.

End JsReplace.

(* ===================================================================== *)
(** ** The analytics sub-application *)
(* ===================================================================== *)

Module Analytics.
Import JsReplace.

(** ['headers' | 'env' | 'none'] *)
Inductive Source := FromHeaders | FromEnv | NoSource.

Record AnalyticsCredentials := mkCredentials {
  accountId : option string;
  apiToken : option string;
  source : Source
}.

(** What [getCredentials] is given: [c.req.header] and [c.env]. *)
Record Context := mkContext {
  header : string -> option string;
  env : string -> option string
}.

Definition getCredentials (c : Context) : AnalyticsCredentials :=
  let headerAccountId := header c "X-CF-Account-ID" in
  let headerApiToken := header c "X-CF-API-Token" in
  if Js.truthy headerAccountId && Js.truthy headerApiToken
  then mkCredentials headerAccountId headerApiToken FromHeaders
  else
    let envAccountId := env c "CF_ACCOUNT_ID" in
    let envApiToken := env c "CF_API_TOKEN" in
    if Js.truthy envAccountId && Js.truthy envApiToken
    then mkCredentials envAccountId envApiToken FromEnv
    else mkCredentials None None NoSource.

(** The values the routes put into the JSON objects they answer with
    before any upstream data is at hand: [null], a boolean, a string, [[]]. *)
Inductive Json :=
| JNull
| JBool (b : bool)
| JText (s : string)
| JEmptyList.

(** [c.json({ ...fields }, status)] *)
Record Reply := mkReply {
  status : Z;
  payload : list (string * Json)
}.

Definition sourceName (s : Source) : string :=
  match s with
  | FromHeaders => "headers"
  | FromEnv => "env"
  | NoSource => "none"
  end.

(** [source !== 'none'] *)
Definition hasSource (s : Source) : bool :=
  match s with
  | NoSource => false
  | _ => true
  end.

(** [GET /health] *)
Definition health (c : Context) : Reply :=
  let source := source (getCredentials c) in
  mkReply 200 ([("status", JText "ok");
                        ("credentialsSource", JText (sourceName source));
                        ("hasCredentials", JBool (hasSource source))]).





(** [!accountId || !apiToken] *)
Definition missing (cr : AnalyticsCredentials) : bool :=
  negb (Js.truthy (accountId cr)) || negb (Js.truthy (apiToken cr)).




(** *** Parameter substitution of [POST /query] *)

Definition isDigit (c : ascii) : bool :=
  Nat.leb 48 (nat_of_ascii c) && Nat.leb (nat_of_ascii c) 57.

(** The one-byte white space of [\s]: tab, line feed, vertical tab, form
    feed, carriage return, space. *)
Definition isAsciiSpace (c : ascii) : bool :=
  let n := nat_of_ascii c in
  (Nat.leb 9 n && Nat.leb n 13) || Nat.eqb n 32.

(** U+00A0 as UTF-8. *)
Definition isNbsp (c1 c2 : ascii) : bool :=
  Nat.eqb (nat_of_ascii c1) 194 && Nat.eqb (nat_of_ascii c2) 160.

(** The three-byte white space of [\s] as UTF-8: U+1680, U+2000 to U+200A,
    U+2028, U+2029, U+202F, U+205F, U+3000 and U+FEFF. *)
Definition isWideSpace (c1 c2 c3 : ascii) : bool :=
  let b1 := nat_of_ascii c1 in
  let b2 := nat_of_ascii c2 in
  let b3 := nat_of_ascii c3 in
  (Nat.eqb b1 225 && Nat.eqb b2 154 && Nat.eqb b3 128)
  || (Nat.eqb b1 226 && Nat.eqb b2 128
      && ((Nat.leb 128 b3 && Nat.leb b3 138)
          || Nat.eqb b3 168 || Nat.eqb b3 169 || Nat.eqb b3 175))
  || (Nat.eqb b1 226 && Nat.eqb b2 129 && Nat.eqb b3 159)
  || (Nat.eqb b1 227 && Nat.eqb b2 128 && Nat.eqb b3 128)
  || (Nat.eqb b1 239 && Nat.eqb b2 187 && Nat.eqb b3 191).

(** What is left after the digits [\d*] takes. *)
Fixpoint dropDigits (s : string) : string :=
  match s with
  | String c rest => if isDigit c then dropDigits rest else s
  | EmptyString => EmptyString
  end.

(** What is left after the white space [\s*] takes. *)
Fixpoint dropSpaces (s : string) : string :=
  match s with
  | String c1 r1 =>
      if isAsciiSpace c1 then dropSpaces r1
      else
        match r1 with
        | String c2 r2 =>
            if isNbsp c1 c2 then dropSpaces r2
            else
              match r2 with
              | String c3 r3 => if isWideSpace c1 c2 c3 then dropSpaces r3 else s
              | EmptyString => s
              end
        | EmptyString => s
        end
  | EmptyString => EmptyString
  end.

(** The canonical form under the [i] flag for the characters that can
    equal an ASCII letter: [a] to [z] become [A] to [Z]. *)
Definition upperAscii (c : ascii) : ascii :=
  let n := nat_of_ascii c in
  if Nat.leb 97 n && Nat.leb n 122 then ascii_of_nat (n - 32) else c.

Fixpoint upper (s : string) : string :=
  match s with
  | String c rest => String (upperAscii c) (upper rest)
  | EmptyString => EmptyString
  end.

Definition UNITS : list string :=
  ["SECOND"; "MINUTE"; "HOUR"; "DAY"; "WEEK"; "MONTH"; "YEAR"].

(** [/^'\d+'\s+(SECOND|MINUTE|HOUR|DAY|WEEK|MONTH|YEAR)$/i.test(value)] *)
Definition isIntervalValue (value : string) : bool :=
  match value with
  | String q afterQuote =>
      Ascii.eqb q "'"
      && negb (String.eqb (dropDigits afterQuote) afterQuote)
      && match dropDigits afterQuote with
         | String q' afterNumber =>
             Ascii.eqb q' "'"
             && negb (String.eqb (dropSpaces afterNumber) afterNumber)
             && existsb (String.eqb (upper (dropSpaces afterNumber))) UNITS
         | EmptyString => false
         end
  | EmptyString => false
  end.

Section Substitution.

(** The numbers of a JSON body and [String(value)] for them. *)
Variable Number : Type.
Variable showNumber : Number -> string.

(** [string | number] *)
Inductive ParamValue :=
| PString (s : string)
| PNumber (n : Number).

Definition escapeValue (value : ParamValue) : string :=
  match value with
  | PString s =>
      if isIntervalValue s then s
      else "'" +++ replaceAll "'" "''" s +++ "'"
  | PNumber n => showNumber n
  end.

Definition placeholder (key : string) : string := "{{" +++ key +++ "}}".

(** The body of the [forEach] over [Object.entries(params)]. *)
Definition substituteOne (query : string) (entry : string * ParamValue) : string :=
  replaceAll (placeholder (fst entry)) (escapeValue (snd entry)) query.

(** [query] after the [if (params) { ... }] block; the parameters are the
    entries in the order of [Object.entries]. *)
Definition substituteParams (query : string)
           (params : option (list (string * ParamValue))) : string :=
  match params with
  | Some entries => fold_left substituteOne entries query
  | None => query
  end.



End Substitution.

(** The text of a SQL string literal written with doubled quotes: the
    characters between the outer quotes, each [''] read as one quote;
    [None] when the text is not one such literal. *)
Fixpoint unquoteBody (s : string) : option string :=
  match s with
  | EmptyString => None
  | String c rest =>
      if Ascii.eqb c "'" then
        match rest with
        | EmptyString => Some EmptyString
        | String d rest' =>
            if Ascii.eqb d "'"
            then option_map (String "'") (unquoteBody rest')
            else None
        end
      else option_map (String c) (unquoteBody rest)
  end.

Definition unquote (s : string) : option string :=
  match s with
  | String q rest => if Ascii.eqb q "'" then unquoteBody rest else None
  | EmptyString => None
  end.

(** A run of white space characters of [\s]. *)
Inductive Spaces : string -> Prop :=
| Spaces_none : Spaces EmptyString
| Spaces_ascii (c : ascii) (ws : string) :
    isAsciiSpace c = true -> Spaces ws -> Spaces (String c ws)
| Spaces_nbsp (c1 c2 : ascii) (ws : string) :
    isNbsp c1 c2 = true -> Spaces ws -> Spaces (String c1 (String c2 ws))
| Spaces_wide (c1 c2 c3 : ascii) (ws : string) :
    isWideSpace c1 c2 c3 = true -> Spaces ws ->
    Spaces (String c1 (String c2 (String c3 ws))).

Fixpoint allDigits (s : string) : bool :=
  match s with
  | String c rest => isDigit c && allDigits rest
  | EmptyString => true
  end.

End Analytics.

(* ===================================================================== *)
(** ** The Durable Objects sub-application: the pass-through route *)
(* ===================================================================== *)

Module DurableObjects.
Import JsReplace.

(** A thrown value, as [String(error)] renders it. *)
Definition Thrown := string.

Section Namespaces.

(** The ids of the runtime ([DurableObjectId]). *)
Variable Id : Type.




(** What the route answers with: [c.json({ error }, status)], or the
    response of the Durable Object itself. *)
Inductive Reply :=
| ErrorReply (status : Z) (error : string)
| Passed (response : Store.Response).

(** How the awaited [stub.fetch] settles. *)
Inductive Settled :=
| Resolved (response : Store.Response)
| Rejected (error : Thrown).



(** [new URL(text).toString()], which throws on what is not a URL. *)
Variable normalizeUrl : string -> string + Thrown.


(** The same route from the [await] on. *)
Definition fetch_resume (s : Settled) : Reply :=
  match s with
  | Resolved response => Passed response
  | Rejected error => ErrorReply 500 error
  end.

End Namespaces.

End DurableObjects.

(* ===================================================================== *)
(** * Properties *)
(* ===================================================================== *)

(** ** Strings *)

Lemma prefix_refl (s : string) : String.prefix s s = true.
Proof.
  induction s as [|c s IH]; simpl; [reflexivity|].
  destruct (Ascii.ascii_dec c c); [assumption|congruence].
Qed.

Lemma prefix_append_inv (a b h : string) :
  String.prefix (a +++ b) h = true -> String.prefix a h = true.
Proof.
  revert h; induction a as [|c a IH]; intros [|d h] H; simpl in *;
    try reflexivity; try discriminate.
  destruct (Ascii.ascii_dec c d); [auto|discriminate].
Qed.

Lemma prefix_trans (a b c : string) :
  String.prefix a b = true -> String.prefix b c = true -> String.prefix a c = true.
Proof.
  revert b c; induction a as [|x a IH]; intros [|y b] [|z c] Hab Hbc;
    simpl in *; try reflexivity; try discriminate.
  destruct (Ascii.ascii_dec x y) as [->|]; [|discriminate].
  destruct (Ascii.ascii_dec y z) as [->|]; [|discriminate].
  eauto.
Qed.

Lemma includes_self_suffix (a n : string) : Js.includes n (a +++ n) = true.
Proof.
  induction a as [|c a IH]; simpl.
  - destruct n as [|d n]; simpl; [reflexivity|].
    destruct (Ascii.ascii_dec d d); [|congruence].
    rewrite prefix_refl. reflexivity.
  - rewrite IH. apply orb_true_r.
Qed.

Lemma includes_append_inv (a b h : string) :
  Js.includes (a +++ b) h = true -> Js.includes a h = true.
Proof.
  induction h as [|c h IH]; cbn [Js.includes]; intros H.
  - eapply prefix_append_inv; eassumption.
  - apply orb_true_iff in H. apply orb_true_iff. destruct H as [H|H].
    + left. eapply prefix_append_inv; eassumption.
    + right. auto.
Qed.

(** A string that starts with [p] after a shorter prefix [q] of [p]
    starts with [q] too. *)
Lemma startsWith_weaken (q p h : string) :
  String.prefix q p = true -> Js.startsWith p h = true -> Js.startsWith q h = true.
Proof. unfold Js.startsWith. apply prefix_trans. Qed.

(** ** The supervisor *)

Section Supervisor.
Import Cli.

Lemma includes_code_report (a : string) (code : Z) :
  reportsCode code (a +++ "exited with code " +++ Js.showZ code) = true.
Proof. unfold reportsCode. apply includes_self_suffix. Qed.

Lemma reportsCode_needs_phrase (code : Z) (line : string) :
  Js.includes "exited with code " line = false -> reportsCode code line = false.
Proof.
  unfold reportsCode. intros H.
  destruct (Js.includes ("exited with code " +++ Js.showZ code) line) eqn:E;
    [|reflexivity].
  apply includes_append_inv in E. congruence.
Qed.

Lemma exitCode_app_no_exit (a b : list Effect) :
  exitCode a = None -> exitCode (a ++ b) = exitCode b.
Proof.
  induction a as [|e a IH]; simpl; [reflexivity|].
  destruct e; auto; discriminate.
Qed.

Lemma exitCode_logEach (lines : list string) : exitCode (logEach lines) = None.
Proof. induction lines; simpl; auto. Qed.

Lemma isSpawn_logEach (lines : list string) : existsb isSpawn (logEach lines) = false.
Proof. induction lines; simpl; auto. Qed.

Lemma consoleLines_app (a b : list Effect) :
  consoleLines (a ++ b) = consoleLines a ++ consoleLines b.
Proof. unfold consoleLines. apply flat_map_app. Qed.

End Supervisor.

Section Readiness.
Import Cli.

Variable m : Mode.
Variable options : Options.

(** A handler other than the readiness branch announces nothing and opens
    no browser; the readiness branch does each once. *)
Lemma handle_counts (s : Supervisor) (e : Event) :
  let r := handle m options s e in
  let fires := negb (started s)
               && match e with Stdout chunk => isReady m chunk | _ => false end in
  started (fst r) = started s || fires
  /\ runningAnnouncements m (snd r) = Nat.b2n fires
  /\ browserOpenings (snd r) = Nat.b2n (fires && open options)
  /\ exited (fst r) = match e with
                      | Close code => Some (orZero code)
                      | _ => exited s
                      end.
Proof.
  destruct s as [st tu ex], e as [chunk|chunk|code|name|]; destruct m;
    cbn [handle fst snd started hasTui exited];
    unfold onStdoutPrimary, onStdoutAttach, onStderrPrimary, onStderrAttach,
           onClosePrimary, onCloseAttach, shutdownPrimary, shutdownAttach,
           runningAnnouncements, browserOpenings, isReady;
    cbn [started hasTui exited fst snd].
  all: try (destruct st, tu; cbn;
            repeat match goal with
                   | |- context [if ?b then _ else _] => destruct b; cbn
                   end;
            repeat split; reflexivity).
Qed.

Lemma filter_length_app {A} (f : A -> bool) (a b : list A) :
  List.length (filter f (a ++ b))
  = List.length (filter f a) + List.length (filter f b).
Proof. rewrite filter_app, length_app. reflexivity. Qed.

Lemma supervise_counts (events : list Event) :
  forall s, exited s = None ->
    let r := supervise m options s events in
    let fires := negb (started s) && sawReady m (untilClose events) in
    started (fst r) = started s || fires
    /\ runningAnnouncements m (snd r) = Nat.b2n fires
    /\ browserOpenings (snd r) = Nat.b2n (fires && open options).
Proof.
  induction events as [|e rest IH]; intros s Hs.
  - cbn. rewrite andb_false_r, orb_false_r. auto.
  - cbn [supervise]. rewrite Hs.
    pose proof (handle_counts s e) as (Hst & Hann & Hbr & Hex).
    destruct (handle m options s e) as [s1 out1] eqn:Eh.
    cbn [fst snd] in Hst, Hann, Hbr, Hex.
    destruct (supervise m options s1 rest) as [s2 out2] eqn:Er.
    cbn [fst snd].
    unfold runningAnnouncements, browserOpenings in *.
    rewrite !filter_length_app, Hann, Hbr.
    destruct e as [chunk|chunk|code|name|].
    2,4,5: (rewrite Hs in Hex; specialize (IH s1 Hex); rewrite Er in IH;
            cbn [fst snd] in IH; destruct IH as (I1 & I2 & I3);
            rewrite I1, I2, I3, Hst; cbn [untilClose sawReady existsb];
            rewrite !andb_false_r, !orb_false_r; cbn; auto).
    + rewrite Hs in Hex. specialize (IH s1 Hex). rewrite Er in IH.
      cbn [fst snd] in IH. destruct IH as (I1 & I2 & I3).
      rewrite I1, I2, I3, Hst. cbn [untilClose sawReady existsb].
      fold (sawReady m (untilClose rest)).
      destruct (started s), (isReady m chunk), (sawReady m (untilClose rest)),
               (open options); cbn; auto.
    + destruct rest as [|e' rest']; cbn [supervise] in Er.
      * inversion Er; subst. rewrite Hst. cbn.
        rewrite !andb_false_r, !orb_false_r. auto.
      * rewrite Hex in Er. inversion Er; subst. rewrite Hst. cbn.
        rewrite !andb_false_r, !orb_false_r. auto.
Qed.

End Readiness.

(** C7. In a supervisor run of either command the switch to Running
    ([started], the success output or the TUI's started mark, the browser)
    happens only when a chunk of the child's standard output with a
    readiness phrase has reached the handler, and happens at most once:
    after any sequence of events, [started] holds exactly when such a chunk
    was among the events handled, the announcement was made once if
    [started] holds and never otherwise, and the browser was opened once if
    [started] holds and opening was not disabled, never otherwise. *)
Theorem C7_running_only_after_readiness_once
  (m : Cli.Mode) (options : Cli.Options) (withTui : bool) (events : list Cli.Event) :
  let r := Cli.supervise m options (Cli.mkSupervisor false withTui None) events in
  Cli.started (fst r) = Cli.sawReady m (Cli.untilClose events)
  /\ Cli.runningAnnouncements m (snd r) = Nat.b2n (Cli.started (fst r))
  /\ Cli.browserOpenings (snd r)
     = Nat.b2n (Cli.started (fst r) && Cli.open options).
Proof.
  pose proof (supervise_counts m options events
                (Cli.mkSupervisor false withTui None) eq_refl) as (H1 & H2 & H3).
  cbn [Cli.started negb andb orb] in H1, H2, H3.
  cbn zeta. rewrite H1, H2, H3. auto.
Qed.

(** C8 as amended. While Running without the terminal renderer, a chunk of
    the child's standard output that contains one of the noise patterns is
    dropped and any other chunk is written to standard output unchanged,
    whether or not verbose mode was requested; nothing else happens. *)
Theorem C8_noise_filter_while_running (options : Cli.Options) (output : string) :
  Cli.onStdoutPrimary options (Cli.mkSupervisor true false None) output
  = (Cli.mkSupervisor true false None,
     if Cli.isLocalflareNoise output then [] else [Cli.StdoutWrite output]).
Proof.
  unfold Cli.onStdoutPrimary. cbn.
  destruct (Cli.isLocalflareNoise output); reflexivity.
Qed.

(** C8 as stated fails: with verbose mode requested, a chunk naming the
    inspector's path prefix is still suppressed while Running. *)
Lemma C8_verbose_does_not_lift_the_filter :
  ~ (forall (options : Cli.Options) (output : string),
        Cli.verbose options = true ->
        Cli.isLocalflareNoise output = true ->
        snd (Cli.onStdoutPrimary options (Cli.mkSupervisor true false None) output)
        = [Cli.StdoutWrite output]).
Proof.
  intros H.
  specialize (H (Cli.mkOptions 8787 true false true false None)
                "GET /__localflare/health 200 OK" eq_refl eq_refl).
  vm_compute in H. discriminate H.
Qed.

(** C9. When the child's [close] event carries no exit code (the child was
    ended by a signal), either command prints nothing to the console and
    exits with code 0; this includes the close that follows the supervisor's
    own SIGTERM, sent on SIGINT or SIGTERM. *)
Theorem C9_signal_close_exits_zero
  (m : Cli.Mode) (options : Cli.Options) (s : Cli.Supervisor)
  (isStarted withTui : bool) :
  let out := snd (Cli.handle m options s (Cli.Close None)) in
  let viaSignal name :=
    snd (Cli.supervise m options (Cli.mkSupervisor isStarted withTui None)
                       [Cli.Signal name; Cli.Close None]) in
  Cli.consoleLines out = []
  /\ Cli.exitCode out = Some 0%Z
  /\ Cli.exited (fst (Cli.handle m options s (Cli.Close None))) = Some 0%Z
  /\ Cli.consoleLines (viaSignal "SIGINT") = []
  /\ Cli.exitCode (viaSignal "SIGINT") = Some 0%Z
  /\ In (Cli.Kill "SIGTERM") (viaSignal "SIGINT")
  /\ Cli.consoleLines (viaSignal "SIGTERM") = []
  /\ Cli.exitCode (viaSignal "SIGTERM") = Some 0%Z
  /\ In (Cli.Kill "SIGTERM") (viaSignal "SIGTERM").
Proof.
  destruct m, s as [st tu ex], withTui, tu; cbn; repeat split; auto.
Qed.

Section ExitCodes.
Import Cli Manifest.

Variable resolve : string -> string.
Variable dirname : string -> string.
Variable pathJoin : list string -> string.
Variable findWranglerConfig : string -> option string.
Variable WRANGLER_CONFIG_FILES : list string.
Variable formatBindings : ResourceManifest -> list string.

Lemma close_report (m : Mode) (options : Options) (s : Supervisor) (code : Z) :
  let out := snd (handle m options s (Close (Some code))) in
  exitCode out = Some code
  /\ exited (fst (handle m options s (Close (Some code)))) = Some code
  /\ printsCode code out = crashed (Some code)
  /\ printsHint code out = crashed (Some code) && isPrimary m.
Proof.
  assert (Htip : reportsCode code "  Tip: Try running 'wrangler dev' directly to debug"
                 = false)
    by (apply reportsCode_needs_phrase; reflexivity).
  assert (Hblank : reportsCode code "" = false)
    by (apply reportsCode_needs_phrase; reflexivity).
  assert (Hw : reportsCode code ("  Wrangler exited with code " +++ Js.showZ code)
               = true)
    by exact (includes_code_report "  Wrangler " code).
  assert (Ha : reportsCode code
                 ("  Localflare API exited with code " +++ Js.showZ code) = true)
    by exact (includes_code_report "  Localflare API " code).
  destruct m, s as [st tu ex];
    cbn [handle onClosePrimary onCloseAttach fst snd hasTui started exited
         orZero isPrimary];
    unfold printsCode, printsHint;
    rewrite ?consoleLines_app, ?andb_true_r, ?andb_false_r;
    destruct (crashed (Some code)) eqn:Ec, tu;
    cbn [consoleLines flat_map app logEach map existsb exitCode isHint];
    unfold isHint;
    rewrite ?Htip, ?Hblank, ?Hw, ?Ha; cbn; auto.
Qed.

Lemma locate_complaint (m : Mode) (proc : Process) (configPath : option string)
      (complaint : list Effect) :
  locate resolve findWranglerConfig WRANGLER_CONFIG_FILES m proc configPath
  = inl complaint ->
  exitCode complaint = None /\ existsb isSpawn complaint = false.
Proof.
  destruct m; cbn [locate]; unfold locatePrimary, locateAttach;
    destruct (Js.truthy configPath);
    repeat match goal with
           | |- context [if ?b then _ else _] => destruct b
           | |- context [match findWranglerConfig ?c with _ => _ end] =>
               destruct (findWranglerConfig c)
           end;
    intros H; inversion H; subst; split; reflexivity.
Qed.

Lemma handle_no_exit (m : Mode) (options : Options) (s : Supervisor) (e : Event) :
  match e with
  | Close code => exitCode (snd (handle m options s e)) = Some (orZero code)
  | _ => exitCode (snd (handle m options s e)) = None
         /\ exited (fst (handle m options s e)) = exited s
  end.
Proof.
  destruct e as [chunk|chunk|code|name|].
  - destruct m, s as [st tu ex]; cbn [handle];
      unfold onStdoutPrimary, onStdoutAttach; cbn [started hasTui exited];
      repeat match goal with
             | |- context [if ?b then _ else _] => destruct b; cbn
             end; auto.
  - destruct m, s as [st tu ex]; cbn;
      repeat match goal with
             | |- context [if ?b then _ else _] => destruct b; cbn
             end; auto.
  - destruct code as [c|]; [exact (proj1 (close_report m options s c))|].
    destruct m, s as [st tu ex]; cbn; destruct tu; reflexivity.
  - destruct m, s as [st tu ex]; cbn;
      repeat match goal with
             | |- context [if ?b then _ else _] => destruct b; cbn
             end; auto.
  - destruct m, s as [st tu ex]; cbn; destruct tu; auto.
Qed.

(** Once the child is spawned, the process exits when the child closes,
    and with the child's code (0 when there is none). *)
Lemma supervise_exit (m : Mode) (options : Options) (events : list Event) :
  forall s, exited s = None ->
    exitCode (snd (supervise m options s events))
    = option_map orZero (firstClose events).
Proof.
  induction events as [|e rest IH]; intros s Hs; [reflexivity|].
  cbn [supervise]. rewrite Hs.
  pose proof (handle_no_exit m options s e) as He.
  destruct (handle m options s e) as [s1 out1].
  destruct (supervise m options s1 rest) as [s2 out2] eqn:Er.
  cbn [fst snd] in *.
  destruct e as [chunk|chunk|code|name|]; cbn [firstClose option_map].
  3: { clear - He. induction out1 as [|x out1 IHo]; [discriminate|].
       destruct x; cbn in *; auto. }
  all: destruct He as [He1 He2]; rewrite exitCode_app_no_exit by assumption;
    specialize (IH s1); rewrite Er in IH; apply IH; congruence.
Qed.

Lemma spawn_found (command : string) (args : list string) (dir : string)
      (sh : bool) (out : list Effect) :
  In (Spawn command args dir sh) out -> existsb isSpawn out = true.
Proof. intros H. apply existsb_exists. eexists. split; [exact H|reflexivity]. Qed.

Ltac find_spawn :=
  match goal with
  | |- context [Spawn ?c ?a ?d ?sh] => apply (spawn_found c a d sh)
  end;
  repeat first [ left; reflexivity
               | apply in_or_app; first [left; left; reflexivity | right]
               | right ].

Lemma isSpawn_app (a b : list Effect) :
  existsb isSpawn (a ++ b) = existsb isSpawn a || existsb isSpawn b.
Proof. apply existsb_app. Qed.

(** C6 as amended. When the child closes with a code, either command
    exits with that code; for a nonzero code the default command prints
    the code and a remediation hint, the [attach] command prints the code
    only. When the config is not found or [setupLocalflareDir] throws,
    no child is spawned and the exit code is 1; otherwise a child is
    spawned and the run exits with the code of the child's close. *)
Theorem C6_exit_code_mirrors_child_or_one
  (m : Mode) (proc : Process) (configPath : option string) (options : Options)
  (s : Supervisor) (code : Z) (events : list Event) :
  let out := snd (handle m options s (Close (Some code))) in
  let whole := runCli resolve dirname pathJoin findWranglerConfig
                      WRANGLER_CONFIG_FILES formatBindings
                      m proc configPath options events in
  (exitCode out = Some code
   /\ printsCode code out = crashed (Some code)
   /\ printsHint code out = crashed (Some code) && isPrimary m)
  /\ match locate resolve findWranglerConfig WRANGLER_CONFIG_FILES
                  m proc configPath with
     | inl _ => exitCode whole = Some 1%Z /\ existsb isSpawn whole = false
     | inr resolvedConfig =>
         match setupLocalflareDir dirname (disk proc) resolvedConfig (isPrimary m) with
         | Throw _ => exitCode whole = Some 1%Z /\ existsb isSpawn whole = false
         | Ok _ => exitCode whole = option_map orZero (firstClose events)
                   /\ existsb isSpawn whole = true
         end
     end.
Proof.
  cbn zeta. split.
  - destruct (close_report m options s code) as (H1 & _ & H3 & H4). auto.
  - destruct (locate resolve findWranglerConfig WRANGLER_CONFIG_FILES
                     m proc configPath) as [complaint|resolvedConfig] eqn:El.
    + destruct (locate_complaint _ _ _ _ El) as [Hc Hs].
      unfold runCli. destruct m; cbn [action locate] in *;
        unfold primary, attach; rewrite El;
        rewrite !isSpawn_app, Hs, isSpawn_logEach;
        rewrite !exitCode_app_no_exit by (assumption || apply exitCode_logEach);
        split; reflexivity.
    + unfold runCli.
      destruct m; cbn [action locate isPrimary] in *;
        unfold primary, attach; rewrite El;
        match goal with
        | |- context [setupLocalflareDir ?d ?f ?c ?b] =>
            destruct (setupLocalflareDir d f c b) as [[setup fs']|error]
        end.
      * rewrite <- !app_assoc.
        repeat (rewrite exitCode_app_no_exit
                 by (try apply exitCode_logEach;
                     destruct (formatBindings (manifest setup));
                     try apply (exitCode_logEach (_ :: _));
                     destruct (wranglerPassthrough proc), (verbose options);
                     reflexivity)).
        cbn [app exitCode].
        rewrite exitCode_app_no_exit
          by (destruct (isTTY proc && tui options); reflexivity).
        rewrite supervise_exit by reflexivity. split; [reflexivity|].
        find_spawn.
      * rewrite !isSpawn_app, !isSpawn_logEach.
        rewrite !exitCode_app_no_exit by (apply exitCode_logEach || reflexivity).
        split; reflexivity.
      * rewrite <- !app_assoc.
        repeat (rewrite exitCode_app_no_exit
                 by (try apply exitCode_logEach;
                     destruct (formatBindings (manifest setup));
                     try apply (exitCode_logEach (_ :: _));
                     reflexivity)).
        cbn [app exitCode].
        rewrite supervise_exit by reflexivity. split; [reflexivity|].
        find_spawn.
      * rewrite !isSpawn_app, !isSpawn_logEach.
        rewrite !exitCode_app_no_exit by (apply exitCode_logEach || reflexivity).
        split; reflexivity.
Qed.

End ExitCodes.

(** C6 as stated fails for the [attach] command: when the child closes with
    code 1 the only console line is the report of the code, no hint. *)
Lemma C6_attach_prints_no_hint :
  ~ (forall (m : Cli.Mode) (options : Cli.Options) (s : Cli.Supervisor) (code : Z),
        code <> 0%Z ->
        let out := snd (Cli.handle m options s (Cli.Close (Some code))) in
        Cli.printsCode code out = true
        /\ Cli.printsHint code out = true
        /\ Cli.exitCode out = Some code).
Proof.
  intros H.
  specialize (H Cli.Attach (Cli.mkOptions 8788 false false true true None)
                (Cli.mkSupervisor true false None) 1%Z ltac:(discriminate)).
  destruct H as (_ & H & _). vm_compute in H. discriminate H.
Qed.

(** ** The bounded stores *)

Section BoundedStores.
Import Store.

Context {T : Type}.

Lemma push_items (x : T) (s : Bounded T) :
  items (push x s) = items s ++ [x] \/ items (push x s) = tl (items s) ++ [x].
Proof.
  unfold push; cbn [items].
  destruct (Nat.leb (capacity s) (List.length (items s))); auto.
Qed.

Lemma in_tl (x : T) (l : list T) : In x (tl l) -> In x l.
Proof. destruct l; simpl; auto. Qed.

Lemma push_in (x y : T) (s : Bounded T) :
  In y (items (push x s)) -> y = x \/ In y (items s).
Proof.
  destruct (push_items x s) as [E|E]; rewrite E; intros H;
    apply in_app_or in H; destruct H as [H|[H|[]]]; auto using in_tl.
Qed.

Lemma push_newest (x : T) (s : Bounded T) : In x (items (push x s)).
Proof.
  destruct (push_items x s) as [E|E]; rewrite E; apply in_or_app; right; left;
    reflexivity.
Qed.

Lemma push_capacity (x : T) (s : Bounded T) : capacity (push x s) = capacity s.
Proof. reflexivity. Qed.

(** The capacity bound: a store within its capacity stays within it. *)
Lemma push_bounded (x : T) (s : Bounded T) :
  0 < capacity s ->
  List.length (items s) <= capacity s ->
  List.length (items (push x s)) <= capacity s.
Proof.
  intros Hpos Hle. unfold push; cbn [items].
  destruct (Nat.leb (capacity s) (List.length (items s))) eqn:E;
    rewrite length_app; cbn [List.length].
  - apply Nat.leb_le in E. destruct (items s); cbn [tl List.length] in *; lia.
  - apply Nat.leb_gt in E. lia.
Qed.

Lemma push_Forall (P : T -> Prop) (x : T) (s : Bounded T) :
  P x -> Forall P (items s) -> Forall P (items (push x s)).
Proof.
  intros Hx Hs. apply Forall_forall. intros y Hy.
  apply push_in in Hy. destruct Hy as [->|Hy]; [assumption|].
  rewrite Forall_forall in Hs. auto.
Qed.

End BoundedStores.

(** ** The sidecar between handler segments *)

Section SidecarInvariant.
Import Store Worker.

Variable env : Env.

Lemma NoDup_snoc (l : list nat) (x : nat) :
  NoDup l -> ~ In x l -> NoDup (l ++ [x]).
Proof.
  induction l as [|a l IH]; intros Hl Hx; cbn.
  - constructor; [intros []|constructor].
  - inversion Hl as [|? ? Ha Hl']; subst. constructor.
    + intros H. apply in_app_or in H. destruct H as [H|[H|[]]]; [auto|].
      subst. apply Hx. left. reflexivity.
    + apply IH; [assumption|]. intros H. apply Hx. right. exact H.
Qed.

Lemma NoDup_tl (l : list nat) : NoDup l -> NoDup (tl l).
Proof. destruct l; cbn; [auto|]. intros H; inversion H; assumption. Qed.

Lemma push_ids (x : CapturedExchange) (b : Bounded CapturedExchange) :
  map ex_id (items (push x b)) = map ex_id (items b) ++ [ex_id x]
  \/ map ex_id (items (push x b)) = tl (map ex_id (items b)) ++ [ex_id x].
Proof.
  destruct (push_items x b) as [E|E]; rewrite E, map_app; cbn [map]; auto.
  right. destruct (items b); reflexivity.
Qed.

Lemma completeRequest_ids (i : nat) (r : Response) (t0 t : Z) (rs : RequestStore) :
  map ex_id (items (exchanges (completeRequest i r t0 t rs)))
  = map ex_id (items (exchanges rs)).
Proof.
  cbn. rewrite map_map. apply map_ext. intros e.
  destruct (Nat.eqb (ex_id e) i); reflexivity.
Qed.

Lemma find_awaits (i : nat) (l : list Pending) (p : Pending) :
  find (awaits i) l = Some p -> In i (map pendingId l).
Proof.
  intros H. apply find_some in H. destruct H as [Hin Hp].
  unfold awaits in Hp. apply Nat.eqb_eq in Hp. subst i.
  apply in_map. exact Hin.
Qed.

Lemma filter_awaits_ids (i j : nat) (l : list Pending) :
  In j (map pendingId (filter (fun q => negb (awaits i q)) l)) ->
  j <> i /\ In j (map pendingId l).
Proof.
  intros H. apply in_map_iff in H. destruct H as (q & <- & Hq).
  apply filter_In in Hq. destruct Hq as [Hin Hq].
  apply negb_true_iff in Hq. unfold awaits in Hq. apply Nat.eqb_neq in Hq.
  split; [exact Hq|]. apply in_map. exact Hin.
Qed.

Lemma fill_not_pending (r : Response) (t0 t : Z) (e : CapturedExchange) :
  pending (fill r t0 t e) = false.
Proof. reflexivity. Qed.

Lemma boot_consistent (rc lc : nat) (t0 : Z) : Consistent (boot rc lc t0).
Proof.
  constructor; cbn; try constructor. intros e [].
Qed.

Lemma step_consistent (i : Input) (s : Sys) :
  Consistent s -> Consistent (step env i s).
Proof.
  intros [Hsb Hib Hnd Hso Hne].
  destruct s as [[rs ls t] fl rp].
  unfold storedIds, inflightIds, storedExchanges in *.
  cbn [world inflight requestStore] in *.
  destruct i as [req| |i o|ms]; cbn [step world inflight replies].
  - unfold proxy_begin. cbn [requestStore logStore now].
    destruct (USER_WORKER env) as [uw|]; [|constructor; assumption].
    cbn [startRequest].
    set (fresh := mkExchange (nextId rs) (method req) (path req) (headers req)
                             t None None None None None).
    constructor; unfold storedIds, inflightIds, storedExchanges;
      cbn [world inflight requestStore exchanges nextId].
    + apply Forall_forall. intros j Hj.
      assert (In j (map ex_id (items (exchanges rs)) ++ [nextId rs])) as Hj'.
      { destruct (push_ids fresh (exchanges rs)) as [E|E]; rewrite E in Hj;
          [exact Hj|].
        apply in_app_or in Hj. apply in_or_app.
        destruct Hj as [Hj|Hj]; [left; apply in_tl; exact Hj|right; exact Hj]. }
      apply in_app_or in Hj'. destruct Hj' as [Hj'|[<-|[]]]; [|lia].
      rewrite Forall_forall in Hsb. specialize (Hsb j Hj'). lia.
    + rewrite map_app. apply Forall_app. split.
      * eapply Forall_impl; [|exact Hib]. cbn. intros; lia.
      * constructor; [cbn; lia|constructor].
    + assert (~ In (nextId rs) (map ex_id (items (exchanges rs)))) as Hfresh.
      { intros H. rewrite Forall_forall in Hsb. specialize (Hsb _ H). lia. }
      destruct (push_ids fresh (exchanges rs)) as [E|E]; rewrite E;
        apply NoDup_snoc; auto using NoDup_tl.
      intros H. apply Hfresh. apply in_tl. exact H.
    + intros e He Hp. apply push_in in He. destruct He as [->|He];
        [discriminate Hp|].
      rewrite map_app. intros H. apply in_app_or in H.
      destruct H as [H|[H|[]]]; [exact (Hso e He Hp H)|].
      cbn in H. rewrite Forall_forall in Hsb.
      specialize (Hsb (ex_id e) (in_map ex_id _ _ He)). lia.
    + apply push_Forall; [reflexivity|assumption].
  - constructor; assumption.
  - destruct (find (awaits i) fl) as [p|] eqn:Ef; [|constructor; assumption].
    destruct p as [uw fw rid st0]. cbn [proxy_resume].
    destruct o as [response|error]; cbn [world inflight requestStore];
      constructor; unfold storedIds, inflightIds, storedExchanges;
      cbn [world inflight requestStore logStore now];
      rewrite ?completeRequest_ids; cbn [completeRequest nextId exchanges items];
      try assumption.
    + apply Forall_forall. intros j Hj. apply filter_awaits_ids in Hj.
      rewrite Forall_forall in Hib. apply Hib, Hj.
    + intros e' He' Hp Hin. apply filter_awaits_ids in Hin.
      destruct Hin as [Hne' Hin].
      apply in_map_iff in He'. destruct He' as (e & <- & He).
      apply find_some in Ef. destruct Ef as [_ Ep].
      unfold awaits in Ep; cbn in Ep. apply Nat.eqb_eq in Ep. subst rid.
      destruct (Nat.eqb (ex_id e) i) eqn:Ei.
      * apply Nat.eqb_eq in Ei. cbn in Hne'. congruence.
      * exact (Hso e He Hp Hin).
    + apply Forall_forall. intros e' He'.
      apply in_map_iff in He'. destruct He' as (e & <- & He).
      rewrite Forall_forall in Hne. specialize (Hne e He).
      destruct (Nat.eqb (ex_id e) rid); [|exact Hne].
      unfold markedError in *. cbn. exact Hne.
    + apply Forall_forall. intros j Hj. apply filter_awaits_ids in Hj.
      rewrite Forall_forall in Hib. apply Hib, Hj.
    + intros e He Hp Hin. apply filter_awaits_ids in Hin.
      exact (Hso e He Hp (proj2 Hin)).
  - constructor; assumption.
Qed.

Lemma run_snoc (inputs : list Input) (i : Input) (s : Sys) :
  run env (inputs ++ [i]) s = step env i (run env inputs s).
Proof. unfold run. rewrite fold_left_app. reflexivity. Qed.

Lemma run_consistent (inputs : list Input) (s : Sys) :
  Consistent s -> Consistent (run env inputs s).
Proof.
  induction inputs as [|i inputs IH] using rev_ind; intros H; [exact H|].
  rewrite run_snoc. apply step_consistent. auto.
Qed.

End SidecarInvariant.

Section ExchangeHistory.
Import Store Worker.

Variable env : Env.

Lemma step_nextId (i : Input) (s : Sys) :
  nextId (requestStore (world s)) <= nextId (requestStore (world (step env i s))).
Proof.
  destruct s as [[rs ls t] fl rp], i as [req| |i o|ms]; cbn [step world].
  - unfold proxy_begin. destruct (USER_WORKER env); cbn; lia.
  - cbn. lia.
  - cbn [inflight]. destruct (find (awaits i) fl) as [[uw fw rid st0]|]; [|cbn; lia].
    destruct o; cbn; lia.
  - cbn. lia.
Qed.

Lemma run_nextId (inputs : list Input) (s : Sys) :
  nextId (requestStore (world s))
  <= nextId (requestStore (world (run env inputs s))).
Proof.
  induction inputs as [|i inputs IH] using rev_ind; [cbn; lia|].
  rewrite run_snoc. etransitivity; [exact IH|apply step_nextId].
Qed.

(** Where a record stored after a segment comes from: it is the record
    the segment created, or a record stored before, unchanged or completed
    by this segment. *)
Lemma step_origin (i : Input) (s : Sys) (e' : CapturedExchange) :
  Consistent s ->
  In e' (storedExchanges (step env i s)) ->
  nextId (requestStore (world s)) <= ex_id e'
  \/ exists e, In e (storedExchanges s) /\ ex_id e = ex_id e' /\ evolves e e'.
Proof.
  intros [Hsb Hib Hnd Hso Hne].
  destruct s as [[rs ls t] fl rp].
  unfold storedIds, inflightIds, storedExchanges in *.
  cbn [world inflight requestStore] in *.
  assert (Hkeep : In e' (items (exchanges rs)) ->
                  nextId rs <= ex_id e'
                  \/ exists e, In e (items (exchanges rs))
                               /\ ex_id e = ex_id e' /\ evolves e e')
    by (intros H; right; exists e'; repeat split; [exact H|left; reflexivity]).
  destruct i as [req| |i o|ms]; cbn [step world inflight replies]; auto.
  - unfold proxy_begin. cbn [requestStore logStore now].
    destruct (USER_WORKER env) as [uw|]; [|exact Hkeep].
    cbn [startRequest requestStore exchanges]. intros H.
    apply push_in in H. destruct H as [->|H]; [left; cbn; lia|auto].
  - destruct (find (awaits i) fl) as [[uw fw rid st0]|] eqn:Ef; [|exact Hkeep].
    destruct o as [response|error];
      cbn [proxy_resume world requestStore completeRequest exchanges items];
      [|exact Hkeep].
    intros H. apply in_map_iff in H. destruct H as (e & <- & He).
    right. exists e. split; [exact He|].
    destruct (Nat.eqb (ex_id e) rid) eqn:Ei; [|split; [reflexivity|left; reflexivity]].
    split; [reflexivity|]. right. split; [|eauto].
    destruct (pending e) eqn:Ep; [reflexivity|exfalso].
    apply (Hso e He Ep). apply Nat.eqb_eq in Ei.
    pose proof (find_awaits _ _ _ Ef) as Hin.
    apply find_some in Ef. destruct Ef as [_ Ea].
    unfold awaits in Ea; cbn in Ea. apply Nat.eqb_eq in Ea.
    congruence.
Qed.

Lemma evolves_trans (a b c : CapturedExchange) :
  evolves a b -> evolves b c -> evolves a c.
Proof.
  intros [->|(Hp & r & t0 & t & ->)] Hbc; [exact Hbc|].
  destruct Hbc as [->|(Hq & _)]; [right; eauto|].
  rewrite (fill_not_pending r t0 t a) in Hq. discriminate Hq.
Qed.

(** A stored record is changed at most once, by its completion. *)
Lemma run_evolves (post : list Input) (s : Sys) :
  Consistent s ->
  forall e e',
    In e (storedExchanges s) ->
    In e' (storedExchanges (run env post s)) ->
    ex_id e' = ex_id e ->
    evolves e e'.
Proof.
  intros Hs. induction post as [|i post IH] using rev_ind; intros e e' He He' Hid.
  - cbn in He'. left.
    pose proof (stored_distinct s Hs) as Hnd. unfold storedIds in Hnd.
    clear - He He' Hid Hnd. induction (storedExchanges s) as [|x l IHl];
      [destruct He|].
    cbn in Hnd. inversion Hnd as [|? ? Hx Hl]; subst.
    destruct He as [->|He], He' as [->|He']; auto.
    + exfalso. apply Hx. rewrite <- Hid. apply in_map. exact He'.
    + exfalso. apply Hx. rewrite Hid. apply in_map. exact He.
  - rewrite run_snoc in He'.
    pose proof (run_consistent env post s Hs) as Hmid.
    destruct (step_origin i _ e' Hmid He') as [Hnew|(em & Hem & Hidm & Hev)].
    + exfalso. pose proof (run_nextId post s) as Hmono.
      pose proof (stored_below s Hs) as Hb. unfold storedIds in Hb.
      rewrite Forall_forall in Hb.
      specialize (Hb (ex_id e) (in_map ex_id _ _ He)). lia.
    + eapply evolves_trans; [|exact Hev]. apply IH; [exact He|exact Hem|congruence].
Qed.

End ExchangeHistory.

(** ** Routing *)

Section Routes.
Import Store Worker.

Variable subHandles : SubRouter -> Request -> bool.

Lemma find_nothing {A} (f : A -> bool) (l : list A) :
  (forall x, In x l -> f x = false) -> find f l = None.
Proof.
  induction l as [|a l IH]; intros H; cbn; [reflexivity|].
  rewrite (H a (or_introl eq_refl)). apply IH. intros x Hx. apply H. right. exact Hx.
Qed.

Lemma mount_under_prefix (s : SubRouter) : String.prefix API_PREFIX (mount s) = true.
Proof. destruct s; reflexivity. Qed.

(** A path outside the reserved prefix matches no inspector route. *)
Lemma route_outside_prefix (req : Request) :
  Js.startsWith API_PREFIX (path req) = false ->
  route subHandles req = RouteProxy.
Proof.
  intros H. unfold route.
  destruct (String.eqb (path req) (API_PREFIX +++ "/health")) eqn:Eh.
  - apply String.eqb_eq in Eh. rewrite Eh in H. discriminate H.
  - rewrite andb_false_r.
    rewrite find_nothing; [reflexivity|]. intros s _.
    destruct (Js.startsWith (mount s) (path req)) eqn:Es; [|reflexivity].
    rewrite (startsWith_weaken _ _ _ (mount_under_prefix s) Es) in H.
    discriminate H.
Qed.

End Routes.

(** ** The proxy handler *)

(** C2 as amended. A request whose path is outside the reserved prefix,
    of any method but [OPTIONS], passes the middleware and is routed to the
    catch-all handler. When no [USER_WORKER] is bound the handler returns,
    without suspending and without touching a store, a reply of status 404
    whose body says that the user worker is not bound; the sidecar goes on
    with that reply added and nothing else changed, and the caller receives
    the status, and for any method but [HEAD] the body, as returned. An
    [OPTIONS] request is answered by the middleware. *)
Theorem C2_unbound_user_worker_is_a_404
  (subHandles : Worker.SubRouter -> Store.Request -> bool)
  (preflightHeaders : Store.Request -> Store.Headers)
  (corsHeaders : Store.Request -> Store.Headers -> Store.Headers)
  (req : Store.Request) (s : Worker.Sys) :
  Js.startsWith Worker.API_PREFIX (Store.path req) = false ->
  let explanation :=
    Store.JsonObject
      [("error", "Not found");
       ("message", "This route is not handled by Localflare API. User worker not bound.")] in
  let r := Worker.proxy_begin (Worker.mkEnv None) req (Worker.world s) in
  (String.eqb (Store.method req) "OPTIONS" = false ->
   Worker.serve subHandles preflightHeaders req = Worker.ByRoute Worker.RouteProxy)
  /\ (String.eqb (Store.method req) "OPTIONS" = true ->
      Worker.serve subHandles preflightHeaders req
      = Worker.ByCors (Store.mkResponse 204 (preflightHeaders req) (Store.Raw EmptyString)))
  /\ exists reply,
       fst r = inl reply
       /\ snd r = Worker.world s
       /\ Store.status reply = 404%Z
       /\ Store.responseBody reply = explanation
       /\ Worker.step (Worker.mkEnv None) (Worker.Proxied req) s
          = Worker.mkSys (Worker.world s) (Worker.inflight s)
                         (Worker.replies s ++ [reply])
       /\ Store.status (Worker.outbound corsHeaders req reply) = 404%Z
       /\ (String.eqb (Store.method req) "HEAD" = false ->
           Store.responseBody (Worker.outbound corsHeaders req reply) = explanation).
Proof.
  intros H. cbn zeta. split; [|split].
  - intros Hm. unfold Worker.serve. rewrite Hm.
    rewrite route_outside_prefix; [reflexivity|exact H].
  - intros Hm. unfold Worker.serve. rewrite Hm. reflexivity.
  - eexists. split; [reflexivity|]. split; [reflexivity|].
    split; [reflexivity|]. split; [reflexivity|]. split; [reflexivity|].
    split; [reflexivity|]. intros Hm. cbn. rewrite Hm. reflexivity.
Qed.

Lemma C2_witness :
  Js.startsWith Worker.API_PREFIX
                (Store.path (Store.mkRequest "POST" "/orders" [] (Some "{}"))) = false
  /\ Worker.serve (fun _ _ => true) (fun _ => [])
                  (Store.mkRequest "POST" "/orders" [] (Some "{}"))
     = Worker.ByRoute Worker.RouteProxy
  /\ exists reply,
       Worker.replies
         (Worker.step (Worker.mkEnv None)
                      (Worker.Proxied (Store.mkRequest "POST" "/orders" [] (Some "{}")))
                      (Worker.boot 100 100 0))
       = [reply]
       /\ Store.status reply = 404%Z
       /\ Store.responseBody reply
          = Store.JsonObject
              [("error", "Not found");
               ("message", "This route is not handled by Localflare API. User worker not bound.")].
Proof.
  split; [reflexivity|].
  destruct (C2_unbound_user_worker_is_a_404
              (fun _ _ => true) (fun _ => []) (fun _ h => h)
              (Store.mkRequest "POST" "/orders" [] (Some "{}"))
              (Worker.boot 100 100 0) eq_refl)
    as (H1 & _ & reply & _ & _ & Hst & Hbody & Hstep & _).
  split; [exact (H1 eq_refl)|].
  exists reply. rewrite Hstep. repeat split; assumption.
Defined.

(** C2 as stated fails for an [OPTIONS] request: with no user worker bound,
    a preflight for a path outside the reserved prefix is answered by the
    [cors] middleware with status 204; the catch-all handler is not reached
    and no 404 is returned. *)
Lemma C2_preflight_is_answered_by_cors :
  ~ (forall (subHandles : Worker.SubRouter -> Store.Request -> bool)
            (preflightHeaders : Store.Request -> Store.Headers)
            (req : Store.Request),
        Js.startsWith Worker.API_PREFIX (Store.path req) = false ->
        match Worker.serve subHandles preflightHeaders req with
        | Worker.ByRoute r => r = Worker.RouteProxy
        | Worker.ByCors reply => Store.status reply = 404%Z
        end).
Proof.
  intros H.
  specialize (H (fun _ _ => false) (fun _ => [])
                (Store.mkRequest "OPTIONS" "/orders" [] None) eq_refl).
  discriminate H.
Qed.

Section Forwarding.
Import Store Worker.

Lemma find_awaits_fresh (i : nat) (l : list Pending) (p : Pending) :
  Forall (fun j => j < i) (map pendingId l) ->
  pendingId p = i ->
  find (awaits i) (l ++ [p]) = Some p.
Proof.
  intros Hl Hp. induction l as [|q l IH]; cbn.
  - unfold awaits. rewrite Hp, Nat.eqb_refl. reflexivity.
  - inversion Hl as [|? ? Hq Hl']; subst.
    unfold awaits at 1. destruct (Nat.eqb_spec (pendingId q) (pendingId p)); [lia|].
    apply IH. exact Hl'.
Qed.

Lemma filter_awaits_fresh (i : nat) (l : list Pending) (p : Pending) :
  Forall (fun j => j < i) (map pendingId l) ->
  pendingId p = i ->
  filter (fun q => negb (awaits i q)) (l ++ [p]) = l.
Proof.
  intros Hl Hp. induction l as [|q l IH]; cbn.
  - unfold awaits. rewrite Hp, Nat.eqb_refl. reflexivity.
  - inversion Hl as [|? ? Hq Hl']; subst.
    unfold awaits at 1. destruct (Nat.eqb_spec (pendingId q) (pendingId p)); [lia|].
    cbn. f_equal. apply IH. exact Hl'.
Qed.

Variable env : Env.











End Forwarding.

(** C3. When the forward to the user worker throws, the handler returns a
    500 response (error "Worker error" with the thrown message, or "Unknown
    error" when the thrown value is not an [Error]) instead of throwing,
    and appends to the log store one error-level entry whose context carries
    the correlation id of that request; the request store is not touched.
    In any state the sidecar can reach, a request whose forward fails is
    answered with that 500 and the entry carries the id its exchange was
    started with. *)
Theorem C3_failed_forward_is_logged_and_answered_500
  (userWorker : Worker.Fetcher) (forwarded : Store.Request) (requestId : nat)
  (startTime : Z) (error : Worker.Thrown) (w : Worker.World)
  (req : Store.Request) (inputs : list Worker.Input)
  (requestCapacity logCapacity : nat) (t0 : Z) :
  let r := Worker.proxy_resume
             (Worker.AwaitFetch userWorker forwarded requestId startTime)
             (Worker.Rejected error) w in
  let entry i t :=
    Store.mkLog Store.LevelError
                ("Request failed: " +++ Worker.errorMessage error)
                (Some [("requestId", Store.CtxId i);
                       ("error", Store.CtxText (Worker.errorMessage error))])
                (Some "request") t in
  let answer := Worker.json [("error", "Worker error");
                             ("message", Worker.errorMessage error)] 500 in
  let env := Worker.mkEnv (Some userWorker) in
  let s := Worker.run env inputs (Worker.boot requestCapacity logCapacity t0) in
  let started := Store.nextId (Worker.requestStore (Worker.world s)) in
  let s1 := Worker.step env (Worker.Proxied req) s in
  let s2 := Worker.step env (Worker.Settled started (Worker.Rejected error)) s1 in
  fst r = answer
  /\ Store.status (fst r) = 500%Z
  /\ Worker.logStore (snd r) = Store.push (entry requestId (Worker.now w)) (Worker.logStore w)
  /\ In (entry requestId (Worker.now w)) (Store.items (Worker.logStore (snd r)))
  /\ Worker.requestStore (snd r) = Worker.requestStore w
  /\ Worker.replies s2 = Worker.replies s ++ [answer]
  /\ Worker.logStore (Worker.world s2)
     = Store.push (entry started (Worker.now (Worker.world s)))
                  (Worker.logStore (Worker.world s))
  /\ Worker.requestStore (Worker.world s2) = Worker.requestStore (Worker.world s1)
  /\ Worker.inflight s2 = Worker.inflight s.
Proof.
  cbn zeta. cbn [Worker.proxy_resume fst snd Worker.logStore Worker.requestStore].
  split; [reflexivity|]. split; [reflexivity|]. split; [reflexivity|].
  split; [apply push_newest|]. split; [reflexivity|].
  pose proof (run_consistent (Worker.mkEnv (Some userWorker)) inputs _
                (boot_consistent requestCapacity logCapacity t0)) as Hc.
  set (s := Worker.run _ inputs _) in *.
  pose proof (Worker.inflight_below s Hc) as Hib. unfold Worker.inflightIds in Hib.
  destruct s as [[rs ls t] fl rp].
  cbn [Worker.world Worker.requestStore Worker.now Worker.inflight Worker.replies] in *.
  cbn [Worker.step Worker.proxy_begin Worker.USER_WORKER Worker.world
       Worker.requestStore Worker.logStore Worker.now Store.startRequest
       Worker.inflight Worker.replies].
  rewrite (find_awaits_fresh _ _ (Worker.AwaitFetch userWorker req (Store.nextId rs) t)
                             Hib eq_refl).
  cbn [Worker.proxy_resume Worker.world Worker.requestStore Worker.logStore
       Worker.now Worker.inflight Worker.replies].
  rewrite (filter_awaits_fresh _ _ (Worker.AwaitFetch userWorker req (Store.nextId rs) t)
                               Hib eq_refl).
  repeat split.
Qed.




(** ** Exchange records *)

(** C4 as amended. An exchange record is created with only its "in" fields
    populated. A failed forward leaves the request store as it was, and no
    record the sidecar ever stores is marked as an error. Between any two
    moments of any run, a stored record is changed at most once: it is the
    same record, or it had only its "in" fields and one completion filled
    its "out" fields. *)
Theorem C4_exchange_in_only_then_completed_at_most_once
  (env : Worker.Env) (requestCapacity logCapacity : nat) (t0 : Z)
  (pre post : list Worker.Input) :
  let s1 := Worker.run env pre (Worker.boot requestCapacity logCapacity t0) in
  let s2 := Worker.run env post s1 in
  (forall req t rs,
      let created :=
        Store.mkExchange (fst (Store.startRequest req t rs)) (Store.method req)
                         (Store.path req) (Store.headers req) t
                         None None None None None in
      In created (Store.items (Store.exchanges (snd (Store.startRequest req t rs))))
      /\ Store.pending created = true)
  /\ (forall p error w,
         Worker.requestStore (snd (Worker.proxy_resume p (Worker.Rejected error) w))
         = Worker.requestStore w)
  /\ Forall (fun e => Store.markedError e = false) (Worker.storedExchanges s2)
  /\ (forall e e',
         In e (Worker.storedExchanges s1) ->
         In e' (Worker.storedExchanges s2) ->
         Store.ex_id e' = Store.ex_id e ->
         Worker.evolves e e').
Proof.
  cbn zeta.
  pose proof (run_consistent env pre _
                (boot_consistent requestCapacity logCapacity t0)) as H1.
  pose proof (run_consistent env post _ H1) as H2.
  split; [|split; [|split]].
  - intros req t rs. split; [apply push_newest|reflexivity].
  - intros [uw fw rid st0] error w. reflexivity.
  - exact (Worker.never_marked _ H2).
  - intros e e'. apply run_evolves. exact H1.
Qed.

Lemma C4_witness :
  Worker.evolves
    (Store.mkExchange 0 "GET" "/orders" [] 0 None None None None None)
    (Store.mkExchange 0 "GET" "/orders" [] 0
                      (Some 200%Z) (Some []) (Some 7%Z) (Some 7%Z) None).
Proof.
  refine (proj2 (proj2 (proj2
    (C4_exchange_in_only_then_completed_at_most_once
       (Worker.mkEnv (Some (Worker.mkFetcher "shop"))) 10 10 0%Z
       [Worker.Proxied (Store.mkRequest "GET" "/orders" [] None)]
       [Worker.Elapse 7;
        Worker.Settled 0 (Worker.Resolved
                            (Store.mkResponse 200 [] (Store.Raw "[]")))])))
    _ _ _ _ _).
  - left. reflexivity.
  - left. reflexivity.
  - reflexivity.
Defined.

(** C4 as stated fails: after a forward that failed, the record created for
    that request is still in the store with only its "in" fields, not
    marked as an error. *)
Lemma C4_failed_forward_leaves_record_unmarked :
  ~ (forall (env : Worker.Env) (req : Store.Request) (error : Worker.Thrown),
        Worker.USER_WORKER env <> None ->
        forall e,
          In e (Worker.storedExchanges
                  (Worker.run env
                     [Worker.Proxied req; Worker.Settled 0 (Worker.Rejected error)]
                     (Worker.boot 10 10 0))) ->
          Store.ex_id e = 0 ->
          Store.markedError e = true).
Proof.
  intros H.
  specialize (H (Worker.mkEnv (Some (Worker.mkFetcher "shop")))
                (Store.mkRequest "GET" "/orders" [] None)
                (Worker.ErrorObject "connection refused")
                ltac:(discriminate)
                (Store.mkExchange 0 "GET" "/orders" [] 0 None None None None None)
                (or_introl eq_refl) eq_refl).
  discriminate H.
Qed.

(** ** The health check *)

Section HealthPolling.
Import Store Worker.

Variable env : Env.

Lemma poll_once (k : nat) (s : Sys) :
  0 < capacity (logStore (world s)) ->
  polled k s -> polled (S k) (step env Health s).
Proof.
  intros Hpos (older & recent & Hs & Hr & Hlen & Hk).
  destruct s as [[rs ls t] fl rp]. unfold polled, storedLogs in *.
  cbn [step health world logStore now] in *. unfold log.
  set (h := mkLog LevelInfo "Health check: Localflare API is running"
                  None (Some "system") t).
  assert (Hh : Forall (fun l => isHealthEntry l = true) [h])
    by (constructor; [reflexivity|constructor]).
  pose proof (push_bounded h ls Hpos Hlen) as Hb.
  rewrite push_capacity.
  destruct (push_items h ls) as [E|E]; rewrite E in *; rewrite Hs in *.
  - exists older, (recent ++ [h]).
    split; [symmetry; apply app_assoc|]. split; [apply Forall_app; auto|].
    split; [exact Hb|].
    destruct Hk as [Hk|Hk]; [left; exact Hk|right].
    rewrite length_app. cbn [List.length]. lia.
  - destruct older as [|o older]; cbn [app tl] in *.
    + exists [], (tl recent ++ [h]).
      split; [reflexivity|]. split; [|split; [exact Hb|left; reflexivity]].
      apply Forall_app. split; [|exact Hh].
      destruct recent; [constructor|]. inversion Hr; assumption.
    + exists older, (recent ++ [h]).
      split; [symmetry; apply app_assoc|]. split; [apply Forall_app; auto|].
      split; [exact Hb|]. right. rewrite length_app. cbn [List.length].
      destruct Hk as [Hk|Hk]; [discriminate Hk|lia].
Qed.

Lemma step_health_capacity (s : Sys) :
  capacity (logStore (world (step env Health s))) = capacity (logStore (world s)).
Proof. destruct s as [[rs ls t] fl rp]. reflexivity. Qed.

Lemma poll_many (n : nat) :
  forall k s,
    0 < capacity (logStore (world s)) ->
    polled k s -> polled (k + n) (run env (repeat Health n) s).
Proof.
  induction n as [|n IH]; intros k s Hpos Hp.
  - rewrite Nat.add_0_r. exact Hp.
  - cbn [repeat run fold_left]. fold (run env (repeat Health n) (step env Health s)).
    replace (k + S n) with (S k + n) by lia.
    apply IH; [rewrite step_health_capacity; exact Hpos|].
    apply poll_once; assumption.
Qed.

Lemma run_health_capacity (n : nat) (s : Sys) :
  capacity (logStore (world (run env (repeat Health n) s)))
  = capacity (logStore (world s)).
Proof.
  revert s. induction n as [|n IH]; intros s; [reflexivity|].
  cbn [repeat run fold_left]. fold (run env (repeat Health n) (step env Health s)).
  rewrite IH. apply step_health_capacity.
Qed.

Lemma step_logs_bounded (i : Input) (s : Sys) :
  capacity (logStore (world (step env i s))) = capacity (logStore (world s))
  /\ (0 < capacity (logStore (world s)) ->
      List.length (storedLogs s) <= capacity (logStore (world s)) ->
      List.length (storedLogs (step env i s)) <= capacity (logStore (world s))).
Proof.
  destruct s as [[rs ls t] fl rp]. unfold storedLogs.
  destruct i as [req| |i o|ms]; cbn [step world inflight].
  - unfold proxy_begin. destruct (USER_WORKER env); cbn; auto.
  - cbn [health world logStore now]. split; [reflexivity|apply push_bounded].
  - destruct (find (awaits i) fl) as [[uw fw rid st0]|]; [|cbn; auto].
    destruct o as [response|error]; cbn [proxy_resume world logStore now];
      [cbn; auto|].
    split; [reflexivity|apply push_bounded].
  - cbn. auto.
Qed.

Lemma run_logs_bounded (inputs : list Input) (rc lc : nat) (t0 : Z) :
  let s := run env inputs (boot rc lc t0) in
  capacity (logStore (world s)) = lc
  /\ (0 < lc -> List.length (storedLogs s) <= lc).
Proof.
  induction inputs as [|i inputs IH] using rev_ind.
  - cbn. split; [reflexivity|lia].
  - cbn zeta in *. rewrite run_snoc. destruct IH as [Hc Hl].
    destruct (step_logs_bounded i (run env inputs (boot rc lc t0))) as [Hc' Hl'].
    rewrite Hc in *. split; [exact Hc'|]. intros Hpos. apply Hl'; auto.
Qed.

(** C10. A GET of the health path passes the middleware and is routed to
    the health check, which returns a reply of status 200 whose body is the
    ok payload, received as such by the caller, and appends exactly one
    info-level entry of category "system" to the log store, leaving the
    request store alone. The store is thereby mutated: when it is full its
    oldest entry is evicted for the health entry, and polling as many times
    as the store's capacity leaves nothing but health entries in it. This
    holds in every state the sidecar can reach. *)
Theorem C10_health_check_writes_to_the_log_store
  (subHandles : SubRouter -> Request -> bool)
  (preflightHeaders : Request -> Headers)
  (corsHeaders : Request -> Headers -> Headers)
  (inputs : list Input) (requestCapacity logCapacity : nat) (t0 : Z)
  (hdrs : Headers) (payload : option string) (n : nat) :
  let s := run env inputs (boot requestCapacity logCapacity t0) in
  let w := world s in
  let r := health w in
  let entry := healthEntry (now w) in
  let req := mkRequest "GET" (API_PREFIX +++ "/health") hdrs payload in
  let ok := JsonObject [("status", "ok");
                        ("message", "Localflare API is running with shared bindings.")] in
  route subHandles req = RouteHealth
  /\ serve subHandles preflightHeaders req = ByRoute RouteHealth
  /\ world (step env Health s) = snd r
  /\ replies (step env Health s) = replies s ++ [fst r]
  /\ fst r = json [("status", "ok");
                   ("message", "Localflare API is running with shared bindings.")] 200
  /\ status (fst r) = 200%Z
  /\ responseBody (fst r) = ok
  /\ status (outbound corsHeaders req (fst r)) = 200%Z
  /\ responseBody (outbound corsHeaders req (fst r)) = ok
  /\ logStore (snd r) = push entry (logStore w)
  /\ (items (logStore (snd r)) = items (logStore w) ++ [entry]
      \/ items (logStore (snd r)) = tl (items (logStore w)) ++ [entry])
  /\ requestStore (snd r) = requestStore w
  /\ (List.length (items (logStore w)) = logCapacity ->
      items (logStore (snd r)) = tl (items (logStore w)) ++ [entry])
  /\ (0 < logCapacity -> logCapacity <= n ->
      Forall (fun l => isHealthEntry l = true)
             (storedLogs (run env (repeat Health n) s))).
Proof.
  cbn zeta.
  destruct (run_logs_bounded inputs requestCapacity logCapacity t0) as [Hcap Hlen].
  cbn zeta in Hcap, Hlen.
  set (s := run env inputs (boot requestCapacity logCapacity t0)) in *.
  split; [reflexivity|]. split; [reflexivity|].
  split; [destruct s as [[rs ls t] fl rp]; reflexivity|].
  split; [destruct s as [[rs ls t] fl rp]; reflexivity|].
  split; [reflexivity|]. split; [reflexivity|]. split; [reflexivity|].
  split; [reflexivity|]. split; [reflexivity|]. split; [reflexivity|].
  split; [apply push_items|]. split; [reflexivity|]. split.
  - intros Hfull. cbn [health snd logStore]. unfold log, push. cbn [items].
    rewrite Hcap, Hfull, Nat.leb_refl. reflexivity.
  - intros Hpos Hn. rewrite <- Hcap in Hpos.
    assert (polled 0 s) as H0.
    { exists (storedLogs s), []. rewrite app_nil_r.
      split; [reflexivity|]. split; [constructor|].
      split; [rewrite Hcap; apply Hlen; lia|].
      right. cbn. lia. }
    destruct (poll_many n 0 s Hpos H0) as (older & recent & Hs & Hr & Hl & Hk).
    rewrite run_health_capacity in Hl. rewrite Hs in *.
    destruct Hk as [->|Hk]; [exact Hr|].
    rewrite length_app in Hl. cbn [Nat.add] in Hk.
    assert (List.length older = 0) as Ho by lia.
    apply length_zero_iff_nil in Ho. subst older. exact Hr.
Qed.

End HealthPolling.

Lemma C10_witness :
  0 < 1 /\ 1 <= 1
  /\ Forall (fun l => Worker.isHealthEntry l = true)
            (Worker.storedLogs
               (Worker.run (Worker.mkEnv (Some (Worker.mkFetcher "shop")))
                  (repeat Worker.Health 1)
                  (Worker.run (Worker.mkEnv (Some (Worker.mkFetcher "shop")))
                     [Worker.Proxied (Store.mkRequest "GET" "/orders" [] None);
                      Worker.Settled 0 (Worker.Rejected (Worker.ErrorObject "boom"))]
                     (Worker.boot 10 1 0)))).
Proof.
  split; [lia|]. split; [lia|].
  refine (proj2 (proj2 (proj2 (proj2 (proj2 (proj2 (proj2 (proj2 (proj2 (proj2
    (proj2 (proj2 (proj2
    (C10_health_check_writes_to_the_log_store
       (Worker.mkEnv (Some (Worker.mkFetcher "shop"))) (fun _ _ => false)
       (fun _ => []) (fun _ h => h)
       [Worker.Proxied (Store.mkRequest "GET" "/orders" [] None);
        Worker.Settled 0 (Worker.Rejected (Worker.ErrorObject "boom"))]
       10 1 0%Z [] None 1))))))))))))) _ _); lia.
Defined.

(** ** The synthesized companion manifest *)

Section Companion.
Import Manifest.

Lemma sameSlot_refl (d : BindingDeclaration) : sameSlot d d = true.
Proof.
  unfold sameSlot. rewrite String.eqb_refl.
  destruct (kind d); reflexivity.
Qed.

(** A manifest the parser accepts declares nothing twice. *)
Lemma parseBindings_distinct (rs : list RawBinding) :
  forall ds, parseBindings rs = Ok ds -> NoDup ds.
Proof.
  induction rs as [|r rs IH]; intros ds H; cbn in H.
  - inversion H. constructor.
  - unfold bind in H. destruct (parseBinding r) as [d|]; [|discriminate].
    destruct (parseBindings rs) as [ds'|]; [|discriminate].
    destruct (existsb (sameSlot d) ds') eqn:E; [discriminate|].
    inversion H; subst. constructor; [|apply IH; reflexivity].
    intros Hin.
    assert (existsb (sameSlot d) ds' = true) as Ht
      by (apply existsb_exists; exists d; split; [exact Hin|apply sameSlot_refl]).
    congruence.
Qed.

Lemma isVariable_spec (d : BindingDeclaration) :
  isVariable d = false <-> kind d <> PlainVariable.
Proof.
  unfold isVariable. destruct (kind d); cbn; split; intros H;
    try reflexivity; try discriminate; try congruence.
Qed.

Lemma synthesize_shares (source : ResourceManifest) (isPrimary : bool)
      (d : BindingDeclaration) :
  NoDup (bindings source) ->
  In d (bindings source) ->
  kind d <> PlainVariable ->
  count_occ decl_eq_dec (cm_bindings (synthesize source isPrimary)) d = 1.
Proof.
  intros Hnd Hin Hk. cbn [synthesize cm_bindings].
  apply NoDup_count_occ'.
  - apply NoDup_filter. exact Hnd.
  - apply filter_In. split; [exact Hin|].
    apply negb_true_iff, isVariable_spec. exact Hk.
Qed.

Variable dirname : string -> string.

(** C1. When [setupLocalflareDir] succeeds, the companion manifest it
    wrote is the one synthesized from the parsed source manifest, and for
    every declaration of the source whose kind is not variable it holds
    exactly one declaration with that binding name, kind and resource
    identifier. *)
Theorem C1_companion_has_each_shared_binding_once
  (fs : FS) (configPath : string) (isPrimary : bool) (r : Setup * FS) :
  setupLocalflareDir dirname fs configPath isPrimary = Ok r ->
  parse fs configPath = Ok (manifest (fst r))
  /\ companionOf r = Some (synthesize (manifest (fst r)) isPrimary)
  /\ forall X K R,
       In (mkDecl K X R) (bindings (manifest (fst r))) ->
       K <> PlainVariable ->
       count_occ decl_eq_dec
                 (cm_bindings (synthesize (manifest (fst r)) isPrimary))
                 (mkDecl K X R) = 1.
Proof.
  unfold setupLocalflareDir, bind. intros H.
  destruct (parse fs configPath) as [source|] eqn:Ep; [|discriminate].
  destruct (write fs (synthesize source isPrimary) _) as [[p fs']|] eqn:Ew;
    [|discriminate].
  inversion H; subst; clear H. cbn [fst snd manifest shadowConfigPath].
  split; [reflexivity|]. split.
  - unfold write in Ew. destruct (mem _ (unwritable fs)); [discriminate|].
    inversion Ew; subst. unfold companionOf.
    cbn [fst snd shadowConfigPath files lookup]. rewrite String.eqb_refl.
    reflexivity.
  - intros X K R Hin HK. apply synthesize_shares; [|exact Hin|exact HK].
    unfold parse in Ep. destruct (lookup configPath (files fs)) as [[m|m]|];
      try discriminate.
    unfold bind in Ep.
    destruct (parseBindings (raw_bindings m)) as [ds|] eqn:Eb; [|discriminate].
    inversion Ep; subst. cbn [bindings].
    eapply parseBindings_distinct. exact Eb.
Qed.

End Companion.

Lemma C1_witness :
  count_occ Manifest.decl_eq_dec
    (Manifest.cm_bindings
       (Manifest.synthesize
          (Manifest.mkManifest "shop" "src/index.ts"
             [Manifest.mkDecl Manifest.StorageDb "DB" "abc-123";
              Manifest.mkDecl Manifest.PlainVariable "API_KEY" "secret"])
          true))
    (Manifest.mkDecl Manifest.StorageDb "DB" "abc-123") = 1.
Proof.
  refine (proj2 (proj2
    (C1_companion_has_each_shared_binding_once
       (fun _ => "/app")
       (Manifest.mkFS
          [("/app/wrangler.toml",
            Manifest.SourceFile
              (Manifest.mkRawManifest "shop" "src/index.ts"
                 [Manifest.mkRaw "storage-db" (Some "DB") (Some "abc-123");
                  Manifest.mkRaw "variable" (Some "API_KEY") (Some "secret")]))]
          [])
       "/app/wrangler.toml" true
       (Manifest.mkSetup "/app/.localflare/wrangler.toml"
          (Manifest.mkManifest "shop" "src/index.ts"
             [Manifest.mkDecl Manifest.StorageDb "DB" "abc-123";
              Manifest.mkDecl Manifest.PlainVariable "API_KEY" "secret"]),
        _)
       eq_refl))
    "DB" Manifest.StorageDb "abc-123" _ _).
  - left. reflexivity.
  - discriminate.
Defined.

(** ** The CLI beyond the exit codes *)

Section Passthrough.
Import Cli CliTrace.

(** X1. The pass-through arguments are exactly what follows the first [--]
    of the raw arguments: nothing when there is no [--], and otherwise the
    raw arguments are some [--]-free arguments, the [--], and the
    pass-through arguments, which may themselves contain further [--]. *)
Theorem X1_passthrough_follows_first_double_dash (rawArgs : list string) :
  match indexOf "--" rawArgs with
  | None => ~ In "--" rawArgs /\ passthroughOf rawArgs = []
  | Some i =>
      exists before,
        rawArgs = before ++ "--" :: passthroughOf rawArgs
        /\ ~ In "--" before
        /\ List.length before = i
  end.
Proof.
  unfold passthroughOf.
  induction rawArgs as [|y rest IH]; cbn [indexOf].
  - split; [intros []|reflexivity].
  - destruct (String.eqb_spec y "--") as [->|Hy].
    + exists []. cbn. repeat split. intros [].
    + destruct (indexOf "--" rest) as [i|].
      * destruct IH as (before & Hr & Hb & Hl).
        exists (y :: before). cbn [app List.length skipn Nat.add].
        split; [f_equal; exact Hr|]. split; [|lia].
        intros [H|H]; [congruence|auto].
      * destruct IH as [Hn _]. split; [|reflexivity].
        intros [H|H]; [congruence|auto].
Qed.

End Passthrough.

Lemma X1_witness :
  exists before,
    ["--port"; "9000"; "--"; "--env"; "staging"; "--"; "x"]
    = before ++ "--" :: ["--env"; "staging"; "--"; "x"]
    /\ ~ In "--" before
    /\ List.length before = 2.
Proof.
  exact (X1_passthrough_follows_first_double_dash
           ["--port"; "9000"; "--"; "--env"; "staging"; "--"; "x"]).
Defined.

Section RunObservations.
Import Cli CliTrace.

Variable m : Mode.
Variable options : Options.

Lemma supervise_exited (s : Supervisor) (events : list Event) (c : Z) :
  exited s = Some c -> supervise m options s events = (s, []).
Proof. intros H. destruct events; cbn; [reflexivity|]. rewrite H. reflexivity. Qed.

Lemma handle_keeps_tui (s : Supervisor) (e : Event) :
  hasTui (fst (handle m options s e)) = hasTui s.
Proof.
  destruct s as [st tu ex], e as [chunk|chunk|code|name|]; destruct m;
    cbn [handle]; unfold onStdoutPrimary, onStdoutAttach;
    cbn [started hasTui exited fst snd];
    repeat match goal with
           | |- context [if ?b then _ else _] => destruct b; cbn
           end; reflexivity.
Qed.

(** The effects of a run, one handler after the other, up to the close. *)
Lemma supervise_cons (s : Supervisor) (e : Event) (rest : list Event) :
  exited s = None ->
  snd (supervise m options s (e :: rest))
  = snd (handle m options s e)
    ++ match e with
       | Close _ => []
       | _ => snd (supervise m options (fst (handle m options s e)) rest)
       end
  /\ match e with
     | Close _ => True
     | _ => exited (fst (handle m options s e)) = None
     end.
Proof.
  intros Hs. cbn [supervise]. rewrite Hs.
  pose proof (handle_counts m options s e) as (_ & _ & _ & Hex).
  destruct (handle m options s e) as [s1 out1]. cbn [fst snd] in *.
  destruct e as [chunk|chunk|code|name|];
    try (rewrite Hs in Hex;
         destruct (supervise m options s1 rest) as [s2 out2]; cbn [snd];
         split; [reflexivity|exact Hex]).
  rewrite (supervise_exited s1 rest _ Hex). cbn [snd]. split; [reflexivity|exact I].
Qed.

Lemma written_app (a b : list Effect) : written (a ++ b) = written a ++ written b.
Proof. apply flat_map_app. Qed.

Lemma tuiOutputs_app (a b : list Effect) :
  tuiOutputs (a ++ b) = tuiOutputs a ++ tuiOutputs b.
Proof. apply flat_map_app. Qed.

Lemma kills_app (a b : list Effect) : kills (a ++ b) = kills a ++ kills b.
Proof. apply flat_map_app. Qed.

Lemma spawns_app (a b : list Effect) : spawns (a ++ b) = spawns a ++ spawns b.
Proof. apply filter_app. Qed.

Lemma written_logEach (lines : list string) : written (logEach lines) = [].
Proof. induction lines; cbn; auto. Qed.

Lemma spawns_logEach (lines : list string) : spawns (logEach lines) = [].
Proof. induction lines; cbn; auto. Qed.

(** No handler spawns anything, and a handler signals the child exactly
    when it is asked to stop it. *)
Lemma handle_spawns_kills (s : Supervisor) (e : Event) :
  spawns (snd (handle m options s e)) = []
  /\ kills (snd (handle m options s e))
     = if asksToStop (match m with Primary => hasTui s | Attach => false end) e
       then ["SIGTERM"] else [].
Proof.
  destruct s as [st tu ex], e as [chunk|chunk|code|name|]; destruct m;
    cbn [handle asksToStop hasTui];
    unfold onStdoutPrimary, onStdoutAttach, onStderrPrimary, onStderrAttach,
           onClosePrimary, onCloseAttach, shutdownPrimary, shutdownAttach;
    cbn [started hasTui exited fst snd];
    repeat match goal with
           | |- context [if ?b then _ else _] => destruct b; cbn
           end; split; reflexivity.
Qed.


End RunObservations.

Section Spawning.
Import Cli CliTrace Manifest.

Variable resolve : string -> string.
Variable dirname : string -> string.
Variable pathJoin : list string -> string.
Variable findWranglerConfig : string -> option string.
Variable WRANGLER_CONFIG_FILES : list string.
Variable formatBindings : ResourceManifest -> list string.


End Spawning.


Section Multiplexing.
Import Cli CliTrace.

Variable options : Options.

Lemma handle_primary_shown (s : Supervisor) (e : Event) :
  let r := handle Primary options s e in
  tuiOutputs (snd r) = (if hasTui s then map snd (chunks [e]) else [])
  /\ written (snd r)
     = if hasTui s then []
       else match e with
            | Stdout chunk =>
                if started (fst r)
                then (if isLocalflareNoise chunk then [] else [(ToStdout, chunk)])
                else if verbose options then [(ToStdout, chunk)] else []
            | Stderr chunk => if verbose options then [(ToStderr, chunk)] else []
            | _ => []
            end.
Proof.
  destruct s as [st tu ex], e as [chunk|chunk|code|name|];
    cbn [handle chunks flat_map map snd app];
    unfold onStdoutPrimary, onStderrPrimary, onClosePrimary, shutdownPrimary,
           runningBannerPrimary;
    cbn [started hasTui exited fst snd];
    try destruct (isReadyPrimary chunk); try destruct (isLocalflareNoise chunk);
    try destruct (crashed code);
    destruct st, tu, (verbose options), (open options); cbn;
    repeat match goal with
           | |- context [if ?b then _ else _] => destruct b; cbn
           end; split; reflexivity.
Qed.

Lemma handle_primary_tui_console (s : Supervisor) (e : Event) :
  hasTui s = true ->
  consoleLines (snd (handle Primary options s e))
  = match e with
    | Close code =>
        if crashed code
        then [ "";
               "  Wrangler exited with code " +++ Js.showZ (orZero code);
               "";
               "  Tip: Try running 'wrangler dev' directly to debug";
               "" ]
        else []
    | _ => []
    end.
Proof.
  intros Htu. destruct s as [st tu ex]. cbn [hasTui] in Htu. subst tu.
  destruct e as [chunk|chunk|code|name|];
    cbn [handle];
    unfold onStdoutPrimary, onStderrPrimary, onClosePrimary, shutdownPrimary;
    cbn [started hasTui exited fst snd];
    try destruct (isReadyPrimary chunk); try destruct (crashed code);
    destruct st, (open options); cbn;
    repeat match goal with
           | |- context [if ?b then _ else _] => destruct b; cbn
           end; reflexivity.
Qed.

(** X3. With the TUI, every chunk of the child's standard output and
    standard error that reaches a handler is handed to the TUI, unfiltered
    and in the order of arrival; none is written through to the
    supervisor's own standard streams, and the supervisor prints no line of
    its own either, the readiness banner included, except the report of a
    nonzero exit code when the child closes. *)
Theorem X3_tui_receives_every_chunk_in_order
  (isStarted : bool) (events : list Event) :
  let out := snd (supervise Primary options
                            (mkSupervisor isStarted true None) events) in
  tuiOutputs out = map snd (chunks (untilClose events))
  /\ written out = []
  /\ consoleLines out
     = match firstClose events with
       | Some code =>
           if crashed code
           then [ "";
                  "  Wrangler exited with code " +++ Js.showZ (orZero code);
                  "";
                  "  Tip: Try running 'wrangler dev' directly to debug";
                  "" ]
           else []
       | None => []
       end.
Proof.
  cbn zeta.
  assert (forall s, exited s = None -> hasTui s = true ->
            tuiOutputs (snd (supervise Primary options s events))
            = map snd (chunks (untilClose events))
            /\ written (snd (supervise Primary options s events)) = []
            /\ consoleLines (snd (supervise Primary options s events))
               = match firstClose events with
                 | Some code =>
                     if crashed code
                     then [ "";
                            "  Wrangler exited with code " +++ Js.showZ (orZero code);
                            "";
                            "  Tip: Try running 'wrangler dev' directly to debug";
                            "" ]
                     else []
                 | None => []
                 end) as H.
  { induction events as [|e rest IH]; intros s Hex Htu; [repeat split; reflexivity|].
    destruct (supervise_cons Primary options s e rest Hex) as [-> Hnext].
    rewrite tuiOutputs_app, written_app, consoleLines_app.
    destruct (handle_primary_shown s e) as [Ht Hw]. cbn zeta in Ht, Hw.
    rewrite Ht, Hw, Htu, (handle_primary_tui_console s e Htu).
    pose proof (handle_keeps_tui Primary options s e) as Hk. rewrite Htu in Hk.
    destruct e as [chunk|chunk|code|name|];
      cbn [untilClose firstClose chunks flat_map map app snd];
      try (destruct (IH _ Hnext Hk) as (-> & -> & ->); fold (chunks (untilClose rest));
           repeat split; reflexivity).
    rewrite app_nil_r. repeat split; reflexivity. }
  apply H; reflexivity.
Qed.

(** X4. Without the TUI and before any readiness phrase was seen, the
    default command shows the child's output only in verbose mode: with
    [--verbose] every chunk of standard output and standard error is written
    through, unfiltered and in order; without it nothing is written. *)
Theorem X4_launching_output_only_when_verbose (events : list Event) :
  sawReady Primary (untilClose events) = false ->
  written (snd (supervise Primary options (mkSupervisor false false None) events))
  = if verbose options then chunks (untilClose events) else [].
Proof.
  assert (forall s, exited s = None -> hasTui s = false -> started s = false ->
            sawReady Primary (untilClose events) = false ->
            written (snd (supervise Primary options s events))
            = if verbose options then chunks (untilClose events) else []) as H.
  { induction events as [|e rest IH]; intros s Hex Htu Hst Hr;
      [destruct (verbose options); reflexivity|].
    destruct (supervise_cons Primary options s e rest Hex) as [-> Hnext].
    rewrite written_app.
    destruct (handle_primary_shown s e) as [_ Hw]. cbn zeta in Hw. rewrite Hw, Htu.
    pose proof (handle_keeps_tui Primary options s e) as Hk. rewrite Htu in Hk.
    pose proof (handle_counts Primary options s e) as (Hs1 & _).
    cbn zeta in Hs1. rewrite Hst in Hs1. cbn [negb andb orb] in Hs1.
    destruct e as [chunk|chunk|code|name|];
      cbn [untilClose sawReady existsb chunks flat_map app] in *;
      fold (sawReady Primary (untilClose rest)) in *;
      fold (chunks (untilClose rest)).
    - apply orb_false_iff in Hr. destruct Hr as [Hc Hr]. rewrite Hc in Hs1.
      rewrite Hs1, (IH _ Hnext Hk Hs1 Hr).
      destruct (verbose options); reflexivity.
    - rewrite (IH _ Hnext Hk Hs1 Hr). destruct (verbose options); reflexivity.
    - destruct (verbose options); reflexivity.
    - rewrite (IH _ Hnext Hk Hs1 Hr). destruct (verbose options); reflexivity.
    - rewrite (IH _ Hnext Hk Hs1 Hr). destruct (verbose options); reflexivity. }
  intros Hr. apply H; auto.
Qed.

End Multiplexing.

Lemma X4_witness :
  Cli.sawReady Cli.Primary
    (Cli.untilClose [Cli.Stdout "Starting local server..."; Cli.Stderr "warning: x"])
  = false
  /\ CliTrace.written
       (snd (Cli.supervise Cli.Primary
               (Cli.mkOptions 8787 true false true false None)
               (Cli.mkSupervisor false false None)
               [Cli.Stdout "Starting local server..."; Cli.Stderr "warning: x"]))
     = [(CliTrace.ToStdout, "Starting local server...");
        (CliTrace.ToStderr, "warning: x")].
Proof.
  split; [reflexivity|].
  exact (X4_launching_output_only_when_verbose
           (Cli.mkOptions 8787 true false true false None)
           [Cli.Stdout "Starting local server..."; Cli.Stderr "warning: x"]
           eq_refl).
Defined.

Section Streams.
Import Cli CliTrace.

Variable options : Options.

(** X5. Without the TUI the default command shows the child's standard
    error only in verbose mode, in every state: with [--verbose] each chunk
    of it is written to standard error in order, without it none is, before
    and after the environment is up. *)
Theorem X5_child_stderr_shown_only_when_verbose
  (isStarted : bool) (events : list Event) :
  filter onStderr
         (written (snd (supervise Primary options
                                  (mkSupervisor isStarted false None) events)))
  = if verbose options then filter onStderr (chunks (untilClose events)) else [].
Proof.
  assert (forall s, exited s = None -> hasTui s = false ->
            filter onStderr (written (snd (supervise Primary options s events)))
            = if verbose options then filter onStderr (chunks (untilClose events))
              else []) as H.
  { induction events as [|e rest IH]; intros s Hex Htu;
      [destruct (verbose options); reflexivity|].
    destruct (supervise_cons Primary options s e rest Hex) as [-> Hnext].
    rewrite written_app, filter_app.
    destruct (handle_primary_shown options s e) as [_ Hw]. cbn zeta in Hw.
    rewrite Hw, Htu.
    pose proof (handle_keeps_tui Primary options s e) as Hk. rewrite Htu in Hk.
    destruct e as [chunk|chunk|code|name|];
      cbn [untilClose chunks flat_map app]; fold (chunks (untilClose rest));
      try rewrite (IH _ Hnext Hk);
      try destruct (started (fst (handle Primary options s (Stdout chunk))));
      try destruct (isLocalflareNoise chunk);
      destruct (verbose options); reflexivity. }
  apply H; reflexivity.
Qed.

Lemma handle_attach_shown (s : Supervisor) (e : Event) :
  written (snd (handle Attach options s e))
  = match e with
    | Stderr chunk => if looksLikeError chunk then [(ToStderr, chunk)] else []
    | _ => []
    end
  /\ tuiOutputs (snd (handle Attach options s e)) = [].
Proof.
  destruct s as [st tu ex], e as [chunk|chunk|code|name|];
    cbn [handle]; unfold onStdoutAttach, onStderrAttach, onCloseAttach,
                         shutdownAttach, runningBannerAttach, looksLikeError;
    cbn [started hasTui exited fst snd];
    repeat match goal with
           | |- context [if ?b then _ else _] => destruct b; cbn
           end; split; reflexivity.
Qed.

(** X6. The [attach] command never echoes the child's standard output, and
    of the child's standard error it writes exactly the chunks that contain
    [ERROR] or [error], in order. *)
Theorem X6_attach_echoes_only_error_chunks
  (isStarted withTui : bool) (events : list Event) :
  written (snd (supervise Attach options
                          (mkSupervisor isStarted withTui None) events))
  = filter (fun w => onStderr w && looksLikeError (snd w))
           (chunks (untilClose events)).
Proof.
  assert (forall s, exited s = None ->
            written (snd (supervise Attach options s events))
            = filter (fun w => onStderr w && looksLikeError (snd w))
                     (chunks (untilClose events))) as H.
  { induction events as [|e rest IH]; intros s Hex; [reflexivity|].
    destruct (supervise_cons Attach options s e rest Hex) as [-> Hnext].
    rewrite written_app, (proj1 (handle_attach_shown s e)).
    destruct e as [chunk|chunk|code|name|];
      cbn [untilClose chunks flat_map app filter onStderr fst snd andb];
      fold (chunks (untilClose rest));
      try rewrite (IH _ Hnext); try reflexivity.
    destruct (looksLikeError chunk); reflexivity. }
  apply H; reflexivity.
Qed.

(** X7. After the spawn the supervisor stops only when the child closes,
    and then with the child's code: a run in which the child does not close
    exits with no code at all. Each SIGINT or SIGTERM it receives before
    that, and with a TUI each exit request of the TUI, sends one SIGTERM to
    the child; nothing else signals the child. *)
Theorem X7_stop_requests_are_forwarded_as_sigterm
  (m : Mode) (isStarted withTui : bool) (events : list Event) :
  let out := snd (supervise m options (mkSupervisor isStarted withTui None) events) in
  let tuiAsks := match m with Primary => withTui | Attach => false end in
  exitCode out = option_map orZero (firstClose events)
  /\ kills out
     = repeat "SIGTERM"
              (List.length (filter (asksToStop tuiAsks) (untilClose events))).
Proof.
  cbn zeta. split; [apply supervise_exit; reflexivity|].
  assert (forall s, exited s = None -> hasTui s = withTui ->
            kills (snd (supervise m options s events))
            = repeat "SIGTERM"
                (List.length
                   (filter (asksToStop match m with
                                       | Primary => withTui
                                       | Attach => false
                                       end) (untilClose events)))) as H.
  { induction events as [|e rest IH]; intros s Hex Htu; [reflexivity|].
    destruct (supervise_cons m options s e rest Hex) as [-> Hnext].
    rewrite kills_app, (proj2 (handle_spawns_kills m options s e)), Htu.
    pose proof (handle_keeps_tui m options s e) as Hk. rewrite Htu in Hk.
    destruct e as [chunk|chunk|code|name|]; cbn [untilClose filter];
      try (rewrite (IH _ Hnext Hk));
      match goal with
      | |- context [asksToStop ?t ?e] => destruct (asksToStop t e)
      end; reflexivity. }
  apply H; reflexivity.
Qed.

End Streams.

Section ExplicitConfig.
Import Cli CliTrace Manifest.

Variable resolve : string -> string.
Variable dirname : string -> string.
Variable pathJoin : list string -> string.
Variable findWranglerConfig : string -> option string.
Variable WRANGLER_CONFIG_FILES : list string.
Variable formatBindings : ResourceManifest -> list string.

(** X8. A config path given on the command line is not a hint but a
    demand: when no file is at the resolved path, either command exits with
    code 1 without spawning a child, whether or not a config could have been
    detected from the working directory. An empty path argument counts as no
    argument: the run is the one of the command without it. *)
Theorem X8_explicit_missing_config_is_fatal
  (m : Mode) (proc : Process) (given : string) (options : Options)
  (events : list Event) :
  given <> "" ->
  existsSync (disk proc) (resolve given) = false ->
  let run cp := runCli resolve dirname pathJoin findWranglerConfig
                       WRANGLER_CONFIG_FILES formatBindings
                       m proc cp options events in
  exitCode (run (Some given)) = Some 1%Z
  /\ spawns (run (Some given)) = []
  /\ run (Some "") = run None.
Proof.
  intros Hne Hmiss. cbn zeta.
  assert (Js.truthy (Some given) = true) as Ht
    by (destruct given; [congruence|reflexivity]).
  split; [|split].
  - unfold runCli. destruct m; cbn [action]; unfold primary, attach,
      locatePrimary, locateAttach; rewrite Ht, Hmiss; cbn [negb];
      rewrite !exitCode_app_no_exit by (apply exitCode_logEach || reflexivity);
      reflexivity.
  - unfold runCli. destruct m; cbn [action]; unfold primary, attach,
      locatePrimary, locateAttach; rewrite Ht, Hmiss; cbn [negb];
      rewrite !spawns_app, ?spawns_logEach; reflexivity.
  - unfold runCli. destruct m; reflexivity.
Qed.

End ExplicitConfig.

Lemma X8_witness :
  "missing.toml" <> ""
  /\ Cli.exitCode
       (Cli.runCli (fun p => "/app/" +++ p) (fun _ => "/app") (Js.join "/")
          (fun _ => Some "/app/wrangler.toml") ["wrangler.toml"] (fun _ => [])
          Cli.Primary
          (Cli.mkProcess "/app" [] false
             (Manifest.mkFS
                [("/app/wrangler.toml",
                  Manifest.SourceFile (Manifest.mkRawManifest "shop" "src/index.ts" []))]
                []))
          (Some "missing.toml")
          (Cli.mkOptions 8787 false false true true None)
          [])
     = Some 1%Z.
Proof.
  split; [discriminate|].
  exact (proj1 (X8_explicit_missing_config_is_fatal
                  (fun p => "/app/" +++ p) (fun _ => "/app") (Js.join "/")
                  (fun _ => Some "/app/wrangler.toml") ["wrangler.toml"] (fun _ => [])
                  Cli.Primary
                  (Cli.mkProcess "/app" [] false
                     (Manifest.mkFS
                        [("/app/wrangler.toml",
                          Manifest.SourceFile
                            (Manifest.mkRawManifest "shop" "src/index.ts" []))]
                        []))
                  "missing.toml"
                  (Cli.mkOptions 8787 false false true true None)
                  [] ltac:(discriminate) eq_refl)).
Defined.

Section NoiseFilter.
Import Cli CliTrace.

Lemma prefix_app_r (n b c : string) :
  String.prefix n b = true -> String.prefix n (b +++ c) = true.
Proof.
  revert b; induction n as [|x n IH]; intros [|y b] H; cbn in *;
    try reflexivity; try discriminate.
  - destruct c; reflexivity.
  - destruct (Ascii.ascii_dec x y); [auto|discriminate].
Qed.

Lemma includes_empty (h : string) : Js.includes "" h = true.
Proof. destruct h; reflexivity. Qed.

Lemma includes_app_r (n b c : string) :
  Js.includes n b = true -> Js.includes n (b +++ c) = true.
Proof.
  induction b as [|y b IH]; cbn [Js.includes String.append]; intros H.
  - destruct n; [apply includes_empty|discriminate].
  - apply orb_true_iff in H. apply orb_true_iff. destruct H as [H|H].
    + left. exact (prefix_app_r n (String y b) c H).
    + right. auto.
Qed.

Lemma includes_app_l (n a b : string) :
  Js.includes n b = true -> Js.includes n (a +++ b) = true.
Proof.
  intros H. induction a as [|x a IH]; cbn [Js.includes String.append];
    [exact H|]. rewrite IH. apply orb_true_r.
Qed.

Lemma includes_inside (n a b c : string) :
  Js.includes n b = true -> Js.includes n (a +++ b +++ c) = true.
Proof. intros H. apply includes_app_l, includes_app_r, H. Qed.

(** X9. The noise filter judges a whole chunk: a chunk that contains a
    noisy chunk is noisy itself, so while Running without the TUI whatever
    else arrives in the same chunk as a noise line is dropped with it. *)
Theorem X9_noise_swallows_the_whole_chunk
  (options : Options) (before noisy after : string) :
  isLocalflareNoise noisy = true ->
  isLocalflareNoise (before +++ noisy +++ after) = true
  /\ written (snd (onStdoutPrimary options (mkSupervisor true false None)
                                   (before +++ noisy +++ after)))
     = [].
Proof.
  intros H.
  assert (isLocalflareNoise (before +++ noisy +++ after) = true) as Hn.
  { unfold isLocalflareNoise in *.
    repeat match type of H with
           | (_ || _ = true) => apply orb_true_iff in H; destruct H as [H|H]
           end;
      [| | | | |apply andb_true_iff in H; destruct H as [H H3];
                apply andb_true_iff in H; destruct H as [H1 H2]];
      repeat match goal with
             | Hi : Js.includes ?n noisy = true |- _ =>
                 rewrite (includes_inside n before noisy after Hi); clear Hi
             end;
      rewrite ?orb_true_r; reflexivity. }
  split; [exact Hn|].
  unfold onStdoutPrimary. cbn [started hasTui negb andb snd app].
  rewrite Hn. reflexivity.
Qed.

End NoiseFilter.

Lemma X9_witness :
  Cli.isLocalflareNoise "GET /__localflare/health 200 OK" = true
  /\ CliTrace.written
       (snd (Cli.onStdoutPrimary
               (Cli.mkOptions 8787 false false true false None)
               (Cli.mkSupervisor true false None)
               ("GET /orders 500 Internal Server Error; "
                +++ "GET /__localflare/health 200 OK" +++ "; done")))
     = [].
Proof.
  split; [reflexivity|].
  exact (proj2 (X9_noise_swallows_the_whole_chunk
                  (Cli.mkOptions 8787 false false true false None)
                  "GET /orders 500 Internal Server Error; "
                  "GET /__localflare/health 200 OK" "; done" eq_refl)).
Defined.

(** ** The sidecar worker beyond one request *)

Section SidecarRuns.
Import Store Worker WorkerTrace.

(** X10. Without a bound user worker nothing is ever captured: whatever
    arrives, the request store stays empty, no correlation id is issued and
    nothing is in flight; every proxied request is answered with the 404
    and every health check with the ok payload, in order. *)
Theorem X10_no_user_worker_no_capture
  (inputs : list Input) (requestCapacity logCapacity : nat) (t0 : Z) :
  let s := run (mkEnv None) inputs (boot requestCapacity logCapacity t0) in
  storedExchanges s = []
  /\ nextId (requestStore (world s)) = 0
  /\ inflight s = []
  /\ replies s
     = flat_map (fun i => match i with
                          | Proxied _ => [notBound]
                          | Health => [healthy]
                          | _ => []
                          end) inputs.
Proof.
  cbn zeta. induction inputs as [|i inputs IH] using rev_ind.
  - cbn. auto.
  - rewrite run_snoc, flat_map_app. destruct IH as (H1 & H2 & H3 & H4).
    destruct (run (mkEnv None) inputs (boot requestCapacity logCapacity t0))
      as [[rs ls t] fl rp].
    unfold storedExchanges in *.
    cbn [world requestStore inflight replies] in *. subst fl rp.
    destruct i as [req| |i o|ms]; cbn; rewrite ?app_nil_r; auto.
Qed.

End SidecarRuns.

(** ** String replacement *)

Section Replacing.
Import JsReplace.

Lemma append_nil_r (s : string) : s +++ "" = s.
Proof. induction s as [|c s IH]; cbn; [reflexivity|]. rewrite IH. reflexivity. Qed.

Lemma append_assoc (a b c : string) : (a +++ b) +++ c = a +++ b +++ c.
Proof. induction a as [|x a IH]; cbn; [reflexivity|]. rewrite IH. reflexivity. Qed.

Lemma includes_char_cons (d c : ascii) (s : string) :
  Js.includes (String d "") (String c s)
  = Ascii.eqb d c || Js.includes (String d "") s.
Proof.
  cbn [Js.includes String.prefix]. f_equal.
  destruct (Ascii.ascii_dec d c) as [->|Hn].
  - rewrite Ascii.eqb_refl. destruct s; reflexivity.
  - symmetry. apply Ascii.eqb_neq. exact Hn.
Qed.

Lemma includes_char_app (d : ascii) (a b : string) :
  Js.includes (String d "") (a +++ b)
  = Js.includes (String d "") a || Js.includes (String d "") b.
Proof.
  induction a as [|c a IH]; [reflexivity|].
  cbn [String.append]. rewrite !includes_char_cons, IH. apply orb_assoc.
Qed.

(** A replacement text without [$] stands for itself. *)
Lemma getSubstitution_plain (matched before after replacement : string) :
  Js.includes "$" replacement = false ->
  getSubstitution matched before after replacement = replacement.
Proof.
  induction replacement as [|c r IH]; intros H; [reflexivity|].
  rewrite includes_char_cons in H. apply orb_false_iff in H. destruct H as [Hc Hr].
  cbn [getSubstitution]. rewrite Ascii.eqb_sym, Hc. f_equal. auto.
Qed.

Lemma splitFrom_nonempty (separator current : string) (skip : nat) (s : string) :
  splitFrom separator current skip s <> [].
Proof.
  revert current skip. induction s as [|c s IH]; intros current skip;
    cbn [splitFrom]; [discriminate|].
  destruct skip; [|apply IH]. destruct (String.prefix separator (String c s));
    [discriminate|apply IH].
Qed.

Lemma join_cons (sep x : string) (l : list string) :
  l <> [] -> Js.join sep (x :: l) = x +++ sep +++ Js.join sep l.
Proof. destruct l; [congruence|reflexivity]. Qed.

(** Replacing every match by one fixed text is splitting at the matches and
    joining with that text. *)
Lemma replaceFrom_join (pattern replacement fixed : string) :
  (forall before after,
      getSubstitution pattern before after replacement = fixed) ->
  forall s current before skip,
    current +++ replaceFrom pattern replacement before skip s
    = Js.join fixed (splitFrom pattern current skip s).
Proof.
  intros Hfix. induction s as [|c s IH]; intros current before skip.
  - cbn. apply append_nil_r.
  - cbn [replaceFrom splitFrom]. destruct skip as [|k]; [|apply IH].
    destruct (String.prefix pattern (String c s)).
    + rewrite join_cons by apply splitFrom_nonempty.
      rewrite Hfix.
      rewrite <- (IH "" (before +++ String c "") (String.length pattern - 1)).
      reflexivity.
    + rewrite <- (IH (current +++ String c "") (before +++ String c "") 0).
      rewrite append_assoc. reflexivity.
Qed.

Lemma replaceAll_join (pattern replacement fixed s : string) :
  (forall before after,
      getSubstitution pattern before after replacement = fixed) ->
  replaceAll pattern replacement s = Js.join fixed (split pattern s).
Proof.
  intros H. unfold replaceAll, split.
  rewrite <- (replaceFrom_join pattern replacement fixed H s "" "" 0).
  reflexivity.
Qed.

(** Where the pattern does not occur nothing is replaced. *)
Lemma replaceFrom_absent (pattern replacement : string) (s before : string) :
  Js.includes pattern s = false ->
  replaceFrom pattern replacement before 0 s = s.
Proof.
  revert before. induction s as [|c s IH]; intros before H; [reflexivity|].
  cbn [Js.includes] in H. apply orb_false_iff in H. destruct H as [Hp Hr].
  cbn [replaceFrom]. rewrite Hp. f_equal. auto.
Qed.

End Replacing.

(** ** The analytics sub-application *)

Section Credentials.
Import Analytics.


Lemma getCredentials_shape (c : Context) :
  let cr := getCredentials c in
  let both (a t : option string) := Js.truthy a && Js.truthy t in
  match source cr with
  | FromHeaders =>
      both (header c "X-CF-Account-ID") (header c "X-CF-API-Token") = true
      /\ accountId cr = header c "X-CF-Account-ID"
      /\ apiToken cr = header c "X-CF-API-Token"
  | FromEnv =>
      both (header c "X-CF-Account-ID") (header c "X-CF-API-Token") = false
      /\ both (env c "CF_ACCOUNT_ID") (env c "CF_API_TOKEN") = true
      /\ accountId cr = env c "CF_ACCOUNT_ID"
      /\ apiToken cr = env c "CF_API_TOKEN"
  | NoSource =>
      both (header c "X-CF-Account-ID") (header c "X-CF-API-Token") = false
      /\ both (env c "CF_ACCOUNT_ID") (env c "CF_API_TOKEN") = false
      /\ accountId cr = None
      /\ apiToken cr = None
  end
  /\ missing cr = negb (hasSource (source cr)).
Proof.
  cbn zeta. unfold getCredentials, missing.
  destruct (Js.truthy (header c "X-CF-Account-ID")
            && Js.truthy (header c "X-CF-API-Token")) eqn:Eh;
    cbn [source accountId apiToken hasSource negb].
  - apply andb_true_iff in Eh. destruct Eh as [-> ->]. cbn. auto.
  - destruct (Js.truthy (env c "CF_ACCOUNT_ID")
              && Js.truthy (env c "CF_API_TOKEN")) eqn:Ee;
      cbn [source accountId apiToken hasSource negb Js.truthy orb].
    + apply andb_true_iff in Ee. destruct Ee as [-> ->]. cbn. auto.
    + auto.
Qed.

(** X13. Credentials come as a pair from one place: from the two headers
    when both are set and non-empty, else from the two environment
    variables when both are set and non-empty, else there are none. A
    header is never combined with an environment variable, a lone or empty
    header is ignored, and the routes' test for missing credentials fails
    exactly when the source is ['none']. *)
Theorem X13_credentials_come_as_a_pair_from_one_source (c : Context) :
  let cr := getCredentials c in
  let both (a t : option string) := Js.truthy a && Js.truthy t in
  match source cr with
  | FromHeaders =>
      both (header c "X-CF-Account-ID") (header c "X-CF-API-Token") = true
      /\ accountId cr = header c "X-CF-Account-ID"
      /\ apiToken cr = header c "X-CF-API-Token"
  | FromEnv =>
      both (header c "X-CF-Account-ID") (header c "X-CF-API-Token") = false
      /\ both (env c "CF_ACCOUNT_ID") (env c "CF_API_TOKEN") = true
      /\ accountId cr = env c "CF_ACCOUNT_ID"
      /\ apiToken cr = env c "CF_API_TOKEN"
  | NoSource =>
      both (header c "X-CF-Account-ID") (header c "X-CF-API-Token") = false
      /\ both (env c "CF_ACCOUNT_ID") (env c "CF_API_TOKEN") = false
      /\ accountId cr = None
      /\ apiToken cr = None
  end
  /\ missing cr = negb (hasSource (source cr)).
Proof. exact (getCredentials_shape c). Qed.

Variable Number : Type.
Variable showNumber : Number -> string.


End Credentials.

Section Quoting.
Import JsReplace Analytics.

Lemma quote_scan (before : string) (c : ascii) (s : string) :
  replaceFrom "'" "''" before 0 (String c s)
  = if Ascii.eqb c "'"
    then "''" +++ replaceFrom "'" "''" (before +++ String c "") 0 s
    else String c (replaceFrom "'" "''" (before +++ String c "") 0 s).
Proof.
  cbn [replaceFrom String.prefix String.length Nat.sub getSubstitution].
  destruct (Ascii.ascii_dec "'" c) as [<-|Hn].
  - cbn. destruct s; reflexivity.
  - assert (Ascii.eqb c "'" = false) as ->
      by (apply Ascii.eqb_neq; congruence).
    reflexivity.
Qed.

Lemma unquoteBody_doubled (s before : string) :
  unquoteBody (replaceFrom "'" "''" before 0 s +++ "'") = Some s.
Proof.
  revert before. induction s as [|c s IH]; intros before; [reflexivity|].
  rewrite quote_scan. destruct (Ascii.eqb c "'") eqn:E.
  - apply Ascii.eqb_eq in E. subst c. cbn [String.append unquoteBody].
    cbn. rewrite IH. reflexivity.
  - cbn [String.append unquoteBody]. rewrite E, IH. reflexivity.
Qed.

Lemma doubled_keeps_dollar_out (s before : string) :
  Js.includes "$" s = false ->
  Js.includes "$" (replaceFrom "'" "''" before 0 s) = false.
Proof.
  revert before. induction s as [|c s IH]; intros before H; [reflexivity|].
  rewrite includes_char_cons in H. apply orb_false_iff in H. destruct H as [Hc Hs].
  rewrite quote_scan. destruct (Ascii.eqb c "'").
  - cbn [String.append]. rewrite !includes_char_cons. cbn. auto.
  - rewrite includes_char_cons, Hc. cbn. auto.
Qed.

Variable Number : Type.
Variable showNumber : Number -> string.

(** X15. A string value that is not written as an interval and holds no
    [$] enters the query as one SQL string literal in the doubled-quote
    notation whose text is the value: the escaped text is the value with
    the outer quotes added and every quote inside doubled, that text is
    what stands in the query at every occurrence of the placeholder, and
    reading the literal back gives the value. *)
Theorem X15_string_value_is_quoted_and_reads_back (value : string) :
  isIntervalValue value = false ->
  Js.includes "$" value = false ->
  let literal := "'" +++ replaceAll "'" "''" value +++ "'" in
  escapeValue Number showNumber (PString Number value) = literal
  /\ (forall q key,
         substituteOne Number showNumber q (key, PString Number value)
         = Js.join literal (split (placeholder key) q))
  /\ unquote literal = Some value.
Proof.
  intros H Hd. cbn zeta.
  assert (E : escapeValue Number showNumber (PString Number value)
              = "'" +++ replaceAll "'" "''" value +++ "'")
    by (unfold escapeValue; rewrite H; reflexivity).
  split; [exact E|]. split.
  - intros q key. unfold substituteOne. cbn [fst snd]. rewrite E.
    apply replaceAll_join. intros before after. apply getSubstitution_plain.
    rewrite !includes_char_app. unfold replaceAll.
    rewrite doubled_keeps_dollar_out by exact Hd. reflexivity.
  - cbn [String.append unquote]. cbn [Ascii.eqb Bool.eqb].
    apply unquoteBody_doubled.
Qed.

(** X17. Parameters whose placeholders do not occur in the query leave it
    as it is, and so does a body without parameters. *)
Theorem X17_unused_parameters_change_nothing
  (q : string) (entries : list (string * ParamValue Number)) :
  forallb (fun e => negb (Js.includes (placeholder (fst e)) q)) entries = true ->
  substituteParams Number showNumber q (Some entries) = q
  /\ substituteParams Number showNumber q None = q.
Proof.
  intros H. split; [|reflexivity]. cbn [substituteParams].
  induction entries as [|e entries IH]; [reflexivity|].
  cbn [forallb] in H. apply andb_true_iff in H. destruct H as [He Hr].
  apply negb_true_iff in He. cbn [fold_left].
  unfold substituteOne at 2. unfold replaceAll.
  rewrite (replaceFrom_absent _ _ _ _ He). auto.
Qed.

(** X18. A value without [$] (a string without it, or a number whose
    rendering has none) replaces every occurrence of its placeholder, left
    to right and without overlap, by its escaped text and changes nothing
    else: the result is the query split at the placeholder and joined with
    the escaped value. *)
Theorem X18_dollar_free_value_replaces_each_placeholder
  (q key : string) (value : ParamValue Number) :
  Js.includes "$" (match value with
                   | PString _ s => s
                   | PNumber _ n => showNumber n
                   end) = false ->
  substituteOne Number showNumber q (key, value)
  = Js.join (escapeValue Number showNumber value) (split (placeholder key) q).
Proof.
  intros H. unfold substituteOne. cbn [fst snd]. apply replaceAll_join.
  intros before after. apply getSubstitution_plain.
  destruct value as [s|n]; cbn [escapeValue]; [|exact H].
  destruct (isIntervalValue s); [exact H|].
  rewrite !includes_char_app. unfold replaceAll.
  rewrite doubled_keeps_dollar_out by exact H. reflexivity.
Qed.

End Quoting.

Section Intervals.
Import JsReplace Analytics.

Lemma dropDigits_spec (s : string) :
  exists ds, s = ds +++ dropDigits s /\ allDigits ds = true.
Proof.
  induction s as [|c s IH]; [exists ""; split; reflexivity|].
  cbn [dropDigits]. destruct (isDigit c) eqn:E.
  - destruct IH as (ds & Hs & Hd). exists (String c ds). cbn.
    rewrite E, Hd. split; [f_equal; exact Hs|reflexivity].
  - exists "". split; reflexivity.
Qed.

Lemma dropSpaces_bounded (n : nat) :
  forall s, String.length s <= n ->
            exists ws, s = ws +++ dropSpaces s /\ Spaces ws.
Proof.
  induction n as [|n IH]; intros s Hn.
  - destruct s; [|cbn in Hn; lia]. exists "". split; [reflexivity|constructor].
  - destruct s as [|c1 r1]; [exists ""; split; [reflexivity|constructor]|].
    cbn [String.length] in Hn. cbn [dropSpaces].
    destruct (isAsciiSpace c1) eqn:E1.
    { destruct (IH r1 ltac:(lia)) as (ws & Hs & Hw).
      exists (String c1 ws). cbn. split; [f_equal; exact Hs|].
      constructor; assumption. }
    destruct r1 as [|c2 r2]; [exists ""; split; [reflexivity|constructor]|].
    cbn [String.length] in Hn.
    destruct (isNbsp c1 c2) eqn:E2.
    { destruct (IH r2 ltac:(lia)) as (ws & Hs & Hw).
      exists (String c1 (String c2 ws)). cbn. split; [do 2 f_equal; exact Hs|].
      constructor; assumption. }
    destruct r2 as [|c3 r3]; [exists ""; split; [reflexivity|constructor]|].
    cbn [String.length] in Hn.
    destruct (isWideSpace c1 c2 c3) eqn:E3.
    { destruct (IH r3 ltac:(lia)) as (ws & Hs & Hw).
      exists (String c1 (String c2 (String c3 ws))). cbn.
      split; [do 3 f_equal; exact Hs|]. constructor; assumption. }
    exists "". split; [reflexivity|constructor].
Qed.

Lemma dropSpaces_spec (s : string) :
  exists ws, s = ws +++ dropSpaces s /\ Spaces ws.
Proof. apply (dropSpaces_bounded (String.length s)). lia. Qed.

Lemma eqb_self_false (a b : string) :
  String.eqb a b = false -> a <> b.
Proof. intros H E. subst. rewrite String.eqb_refl in H. discriminate. Qed.

(** The shape of the values [isIntervalValue] accepts. *)
Lemma interval_shape (value : string) :
  isIntervalValue value = true ->
  exists ds ws u,
    value = "'" +++ ds +++ "'" +++ ws +++ u
    /\ ds <> "" /\ allDigits ds = true
    /\ Spaces ws /\ ws <> ""
    /\ In (upper u) UNITS.
Proof.
  unfold isIntervalValue. destruct value as [|q afterQuote]; [discriminate|].
  intros H. apply andb_true_iff in H. destruct H as [H H3].
  apply andb_true_iff in H. destruct H as [Hq Hd].
  apply Ascii.eqb_eq in Hq. subst q.
  apply negb_true_iff, eqb_self_false in Hd.
  destruct (dropDigits_spec afterQuote) as (ds & Hds & Hall).
  destruct (dropDigits afterQuote) as [|q' afterNumber] eqn:Ed; [discriminate|].
  apply andb_true_iff in H3. destruct H3 as [H3 Hu].
  apply andb_true_iff in H3. destruct H3 as [Hq' Hw].
  apply Ascii.eqb_eq in Hq'. subst q'.
  apply negb_true_iff, eqb_self_false in Hw.
  destruct (dropSpaces_spec afterNumber) as (ws & Hws & Hsp).
  apply existsb_exists in Hu. destruct Hu as (unit & Hin & Hunit).
  apply String.eqb_eq in Hunit.
  exists ds, ws, (dropSpaces afterNumber). repeat split.
  - cbn [String.append]. f_equal. rewrite Hds at 1. f_equal.
    cbn [String.append]. f_equal. exact Hws.
  - intros ->. cbn in Hds. congruence.
  - exact Hall.
  - exact Hsp.
  - intros ->. cbn in Hws. congruence.
  - rewrite Hunit. exact Hin.
Qed.

Lemma digit_is_plain (c : ascii) :
  isDigit c = true -> Ascii.eqb "$" c = false /\ Ascii.eqb "'" c = false.
Proof.
  destruct c as [[] [] [] [] [] [] [] []]; vm_compute; intros H;
    try discriminate H; split; reflexivity.
Qed.

Lemma space_is_plain (c : ascii) :
  isAsciiSpace c = true -> Ascii.eqb "$" c = false /\ Ascii.eqb "'" c = false.
Proof.
  destruct c as [[] [] [] [] [] [] [] []]; vm_compute; intros H;
    try discriminate H; split; reflexivity.
Qed.

Lemma high_is_plain (c : ascii) :
  Nat.leb 128 (nat_of_ascii c) = true ->
  Ascii.eqb "$" c = false /\ Ascii.eqb "'" c = false.
Proof.
  destruct c as [[] [] [] [] [] [] [] []]; vm_compute; intros H;
    try discriminate H; split; reflexivity.
Qed.

Lemma upper_keeps_plain (c : ascii) :
  Ascii.eqb "$" (upperAscii c) = Ascii.eqb "$" c
  /\ Ascii.eqb "'" (upperAscii c) = Ascii.eqb "'" c.
Proof.
  destruct c as [[] [] [] [] [] [] [] []]; vm_compute; split; reflexivity.
Qed.

End Intervals.

Section IntervalValues.
Import JsReplace Analytics.

Lemma dropDigits_app (ds rest : string) :
  allDigits ds = true ->
  dropDigits (ds +++ String "'" rest) = String "'" rest.
Proof.
  induction ds as [|c ds IH]; intros H; [reflexivity|].
  cbn in H. apply andb_true_iff in H. destruct H as [Hc Hd].
  cbn [String.append dropDigits]. rewrite Hc. auto.
Qed.

Lemma nbsp_lead (c1 c2 : ascii) :
  isNbsp c1 c2 = true -> isAsciiSpace c1 = false.
Proof.
  destruct c1 as [[] [] [] [] [] [] [] []]; vm_compute; intros H;
    try discriminate H; reflexivity.
Qed.

Lemma wide_lead (c1 c2 c3 : ascii) :
  isWideSpace c1 c2 c3 = true -> isAsciiSpace c1 = false /\ isNbsp c1 c2 = false.
Proof.
  destruct c1 as [[] [] [] [] [] [] [] []]; vm_compute; intros H;
    try discriminate H; split; reflexivity.
Qed.

Lemma dropSpaces_app (ws u : string) :
  Spaces ws -> dropSpaces u = u -> dropSpaces (ws +++ u) = u.
Proof.
  intros Hw Hu. induction Hw as [|c ws Hc _ IH|c1 c2 ws Hc _ IH|c1 c2 c3 ws Hc _ IH];
    cbn [String.append dropSpaces].
  - exact Hu.
  - rewrite Hc. exact IH.
  - rewrite (nbsp_lead _ _ Hc), Hc. exact IH.
  - destruct (wide_lead _ _ _ Hc) as [-> ->]. rewrite Hc. exact IH.
Qed.

Lemma initial_is_low (c : ascii) :
  existsb (Ascii.eqb (upperAscii c)) ["S"; "M"; "H"; "D"; "W"; "Y"]%char = true ->
  isAsciiSpace c = false
  /\ forall c2 c3, isNbsp c c2 = false /\ isWideSpace c c2 c3 = false.
Proof.
  destruct c as [[] [] [] [] [] [] [] []]; vm_compute; intros H;
    try discriminate H; split; try reflexivity; intros c2 c3; split; reflexivity.
Qed.

Lemma unit_stays (u : string) : In (upper u) UNITS -> dropSpaces u = u.
Proof.
  intros H. destruct u as [|c r].
  - cbn in H. intuition discriminate.
  - assert (existsb (Ascii.eqb (upperAscii c))
                    ["S"; "M"; "H"; "D"; "W"; "Y"]%char = true) as Hi.
    { cbn [upper] in H. unfold UNITS in H. cbn [In] in H.
      destruct H as [H|[H|[H|[H|[H|[H|[H|[]]]]]]]];
        injection H as Hc _; rewrite <- Hc; reflexivity. }
    destruct (initial_is_low c Hi) as [Hs Hn].
    cbn [dropSpaces]. rewrite Hs. destruct r as [|c2 r2]; [reflexivity|].
    rewrite (proj1 (Hn c2 c2)). destruct r2 as [|c3 r3]; [reflexivity|].
    rewrite (proj2 (Hn c2 c3)). reflexivity.
Qed.

Lemma length_append (a b : string) :
  String.length (a +++ b) = String.length a + String.length b.
Proof. induction a as [|c a IH]; cbn; [reflexivity|]. rewrite IH. reflexivity. Qed.

Lemma longer_differs (ws u : string) : ws <> "" -> String.eqb u (ws +++ u) = false.
Proof.
  intros H. destruct (String.eqb u (ws +++ u)) eqn:E; [|reflexivity].
  apply String.eqb_eq in E. apply (f_equal String.length) in E.
  rewrite length_append in E. destruct ws; [congruence|cbn in E; lia].
Qed.

Lemma interval_accepted (ds ws u : string) :
  ds <> "" -> allDigits ds = true -> Spaces ws -> ws <> "" ->
  In (upper u) UNITS ->
  isIntervalValue ("'" +++ ds +++ "'" +++ ws +++ u) = true.
Proof.
  intros Hne Hd Hw Hwn Hu.
  cbn [String.append isIntervalValue]. cbn [Ascii.eqb Bool.eqb andb].
  change (String "'" (ws +++ u)) with ("'" +++ ws +++ u).
  cbn [String.append]. rewrite (dropDigits_app ds (ws +++ u) Hd).
  rewrite (dropSpaces_app ws u Hw (unit_stays u Hu)).
  rewrite (longer_differs ws u Hwn).
  assert (String.eqb (String "'" (ws +++ u)) (ds +++ String "'" (ws +++ u)) = false)
    as ->.
  { destruct ds as [|d ds]; [congruence|]. cbn in Hd.
    apply andb_true_iff in Hd. destruct Hd as [Hd _].
    cbn [String.append String.eqb].
    rewrite (proj2 (digit_is_plain d Hd)). reflexivity. }
  cbn [negb andb Ascii.eqb Bool.eqb].
  apply existsb_exists. exists (upper u). split; [exact Hu|apply String.eqb_refl].
Qed.

Lemma digits_plain (ds : string) :
  allDigits ds = true -> Js.includes "$" ds = false.
Proof.
  induction ds as [|c ds IH]; intros H; [reflexivity|].
  cbn in H. apply andb_true_iff in H. destruct H as [Hc Hd].
  rewrite includes_char_cons, (proj1 (digit_is_plain c Hc)). cbn. auto.
Qed.

Lemma nbsp_plain (c1 c2 : ascii) :
  isNbsp c1 c2 = true -> Ascii.eqb "$" c1 = false /\ Ascii.eqb "$" c2 = false.
Proof.
  intros H. unfold isNbsp in H. apply andb_true_iff in H. destruct H as [H1 H2].
  apply Nat.eqb_eq in H1, H2.
  split; apply high_is_plain; [rewrite H1|rewrite H2]; reflexivity.
Qed.

Lemma wide_high (c1 c2 c3 : ascii) :
  isWideSpace c1 c2 c3 = true ->
  Nat.leb 128 (nat_of_ascii c1) = true
  /\ Nat.leb 128 (nat_of_ascii c2) = true
  /\ Nat.leb 128 (nat_of_ascii c3) = true.
Proof.
  unfold isWideSpace. intros H.
  repeat match type of H with
         | (_ || _ = true) => apply orb_true_iff in H; destruct H as [H|H]
         end;
    repeat match goal with
           | Hx : (_ && _ = true) |- _ =>
               apply andb_true_iff in Hx; destruct Hx
           | Hx : (_ || _ = true) |- _ =>
               apply orb_true_iff in Hx; destruct Hx
           | Hx : Nat.eqb _ _ = true |- _ => apply Nat.eqb_eq in Hx
           | Hx : Nat.leb _ _ = true |- _ => apply Nat.leb_le in Hx
           end;
    repeat split; apply Nat.leb_le; lia.
Qed.

Lemma spaces_plain (ws : string) : Spaces ws -> Js.includes "$" ws = false.
Proof.
  induction 1 as [|c ws Hc _ IH|c1 c2 ws Hc _ IH|c1 c2 c3 ws Hc _ IH];
    [reflexivity| | |]; rewrite ?includes_char_cons, IH.
  - rewrite (proj1 (space_is_plain c Hc)). reflexivity.
  - destruct (nbsp_plain _ _ Hc) as [-> ->]. reflexivity.
  - destruct (wide_high _ _ _ Hc) as (H1 & H2 & H3).
    rewrite (proj1 (high_is_plain _ H1)), (proj1 (high_is_plain _ H2)),
            (proj1 (high_is_plain _ H3)). reflexivity.
Qed.

Lemma upper_plain (u : string) :
  Js.includes "$" (upper u) = Js.includes "$" u.
Proof.
  induction u as [|c u IH]; [reflexivity|].
  cbn [upper]. rewrite !includes_char_cons, IH, (proj1 (upper_keeps_plain c)).
  reflexivity.
Qed.

Lemma unit_plain (u : string) : In (upper u) UNITS -> Js.includes "$" u = false.
Proof.
  intros H. rewrite <- upper_plain. cbn in H.
  repeat (destruct H as [H|H]; [rewrite <- H; reflexivity|]). destruct H.
Qed.

Lemma interval_plain (value : string) :
  isIntervalValue value = true -> Js.includes "$" value = false.
Proof.
  intros H. destruct (interval_shape value H)
    as (ds & ws & u & -> & _ & Hd & Hw & _ & Hu).
  rewrite !includes_char_app, (digits_plain ds Hd), (spaces_plain ws Hw),
          (unit_plain u Hu). reflexivity.
Qed.

Variable Number : Type.
Variable showNumber : Number -> string.

(** X16. The string values that enter the query unquoted are exactly those
    of the form quote, one or more digits, quote, one or more white space
    characters, and one of SECOND, MINUTE, HOUR, DAY, WEEK, MONTH, YEAR in
    any mix of upper and lower case, with nothing before or after; such a
    value is inserted as it is and contains no [$]. *)
Theorem X16_unquoted_values_are_interval_literals (value : string) :
  (isIntervalValue value = true <->
   exists ds ws u,
     value = "'" +++ ds +++ "'" +++ ws +++ u
     /\ ds <> "" /\ allDigits ds = true
     /\ Spaces ws /\ ws <> ""
     /\ In (upper u) UNITS)
  /\ (isIntervalValue value = true ->
      escapeValue Number showNumber (PString Number value) = value
      /\ Js.includes "$" value = false).
Proof.
  split; [split|].
  - apply interval_shape.
  - intros (ds & ws & u & -> & H1 & H2 & H3 & H4 & H5).
    apply interval_accepted; assumption.
  - intros H. split; [unfold escapeValue; rewrite H; reflexivity|].
    apply interval_plain. exact H.
Qed.

End IntervalValues.

Section DollarPatterns.
Import JsReplace Analytics.

Lemma quote_any_before (s b1 b2 : string) :
  replaceFrom "'" "''" b1 0 s = replaceFrom "'" "''" b2 0 s.
Proof.
  revert b1 b2. induction s as [|c s IH]; intros b1 b2; [reflexivity|].
  rewrite !quote_scan.
  rewrite (IH (b1 +++ String c "") (b2 +++ String c "")). reflexivity.
Qed.

Lemma quote_app (a1 a2 : string) :
  replaceAll "'" "''" (a1 +++ a2)
  = replaceAll "'" "''" a1 +++ replaceAll "'" "''" a2.
Proof.
  unfold replaceAll.
  assert (forall b1 b2 b3,
             replaceFrom "'" "''" b1 0 (a1 +++ a2)
             = replaceFrom "'" "''" b2 0 a1 +++ replaceFrom "'" "''" b3 0 a2) as H.
  { induction a1 as [|c a1 IH]; intros b1 b2 b3.
    - cbn [String.append replaceFrom]. apply quote_any_before.
    - cbn [String.append]. rewrite !quote_scan.
      rewrite (IH (b1 +++ String c "") (b2 +++ String c "") b3).
      destruct (Ascii.eqb c "'"); reflexivity. }
  apply H.
Qed.

Lemma getSubstitution_plain_app (matched before after a r : string) :
  Js.includes "$" a = false ->
  getSubstitution matched before after (a +++ r)
  = a +++ getSubstitution matched before after r.
Proof.
  induction a as [|c a IH]; intros H; [reflexivity|].
  rewrite includes_char_cons in H. apply orb_false_iff in H. destruct H as [Hc Ha].
  cbn [String.append getSubstitution]. rewrite Ascii.eqb_sym, Hc. f_equal. auto.
Qed.

Variable Number : Type.
Variable showNumber : Number -> string.

(** X19. A [$&] in a string value is not inserted as text: in each
    replacement it is taken for the matched placeholder. For a value
    [x$&y] with no other [$], every placeholder is replaced by the quoted,
    quote-doubled [x] and [y] with the placeholder itself between them. *)
Theorem X19_dollar_ampersand_in_a_value_brings_the_placeholder_back
  (q key x y : string) :
  Js.includes "$" x = false ->
  Js.includes "$" y = false ->
  substituteOne Number showNumber q (key, PString Number (x +++ "$&" +++ y))
  = Js.join ("'" +++ replaceAll "'" "''" x +++ placeholder key
             +++ replaceAll "'" "''" y +++ "'")
            (split (placeholder key) q).
Proof.
  intros Hx Hy. unfold substituteOne. cbn [fst snd]. apply replaceAll_join.
  intros before after. unfold escapeValue.
  assert (isIntervalValue (x +++ "$&" +++ y) = false) as ->.
  { destruct (isIntervalValue (x +++ "$&" +++ y)) eqn:E; [|reflexivity].
    apply interval_plain in E. rewrite !includes_char_app in E.
    apply orb_false_iff in E. destruct E as [_ E]. discriminate E. }
  rewrite !quote_app.
  change (replaceAll "'" "''" "$&") with "$&".
  rewrite !append_assoc.
  cbn [String.append getSubstitution]. cbn [Ascii.eqb Bool.eqb]. f_equal.
  rewrite getSubstitution_plain_app
    by (unfold replaceAll; apply doubled_keeps_dollar_out; exact Hx).
  f_equal. cbn [String.append getSubstitution]. cbn [Ascii.eqb Bool.eqb].
  f_equal.
  rewrite getSubstitution_plain_app
    by (unfold replaceAll; apply doubled_keeps_dollar_out; exact Hy).
  reflexivity.
Qed.

End DollarPatterns.

Lemma X15_witness :
  Analytics.isIntervalValue "O'Brien" = false
  /\ Js.includes "$" "O'Brien" = false
  /\ Analytics.substituteOne Z Js.showZ
       "SELECT * FROM visits WHERE who = {{name}} OR ref = {{name}}"
       ("name", Analytics.PString Z "O'Brien")
     = "SELECT * FROM visits WHERE who = 'O''Brien' OR ref = 'O''Brien'"
  /\ Analytics.unquote "'O''Brien'" = Some "O'Brien".
Proof.
  split; [reflexivity|]. split; [reflexivity|].
  destruct (X15_string_value_is_quoted_and_reads_back
              Z Js.showZ "O'Brien" eq_refl eq_refl) as (_ & H2 & H3).
  split; [rewrite H2; reflexivity|exact H3].
Defined.

Lemma X16_witness :
  Analytics.isIntervalValue "'15' minute" = true
  /\ Analytics.escapeValue Z Js.showZ (Analytics.PString Z "'15' minute")
     = "'15' minute".
Proof.
  split; [reflexivity|].
  exact (proj1 (proj2 (X16_unquoted_values_are_interval_literals
                         Z Js.showZ "'15' minute") eq_refl)).
Defined.

Lemma X17_witness :
  Analytics.substituteParams Z Js.showZ "SELECT count() FROM logs"
    (Some [("from", Analytics.PString Z "2024-01-01"); ("limit", Analytics.PNumber Z 10%Z)])
  = "SELECT count() FROM logs".
Proof.
  exact (proj1 (X17_unused_parameters_change_nothing
                  Z Js.showZ "SELECT count() FROM logs"
                  [("from", Analytics.PString Z "2024-01-01");
                   ("limit", Analytics.PNumber Z 10%Z)]
                  eq_refl)).
Defined.

Lemma X18_witness :
  Analytics.substituteOne Z Js.showZ
    "SELECT * FROM t WHERE a = {{name}} OR b = {{name}}"
    ("name", Analytics.PString Z "O'Brien")
  = "SELECT * FROM t WHERE a = 'O''Brien' OR b = 'O''Brien'".
Proof.
  rewrite (X18_dollar_free_value_replaces_each_placeholder
             Z Js.showZ "SELECT * FROM t WHERE a = {{name}} OR b = {{name}}"
             "name" (Analytics.PString Z "O'Brien") eq_refl).
  reflexivity.
Defined.

Lemma X19_witness :
  Analytics.substituteOne Z Js.showZ "SELECT * FROM t WHERE a = {{name}}"
    ("name", Analytics.PString Z "x$&y")
  = "SELECT * FROM t WHERE a = 'x{{name}}y'".
Proof.
  exact (X19_dollar_ampersand_in_a_value_brings_the_placeholder_back
           Z Js.showZ "SELECT * FROM t WHERE a = {{name}}" "name" "x" "y"
           eq_refl eq_refl).
Defined.

(** ** Splitting a path *)

Section Splitting.
Import JsReplace.






End Splitting.

Section PassThrough.
Import JsReplace DurableObjects.

Variable Id : Type.
Variable normalizeUrl : string -> string + Thrown.


End PassThrough.

